(** * Recursive file lock of [llnl.util.lock]

    A shallow embedding of [lib/spack/llnl/util/lock.py]: the [Lock] class
    with its recursion counters, the polling loop of [_lock] over the
    non-blocking [flock] primitive, and the two context-manager guards.

    The operating system is the environment of the program.  What it answers
    to each non-blocking lock request is given by an oracle; the lock that the
    descriptor holds, the content of the lock file and the system calls made
    so far are part of the state.  Python exceptions are an explicit outcome
    and leave the state as it was when they were raised.

    Durations are exact rationals: the loop adds one tenth of a second per
    round.  The binary rounding of Python floats is not modelled, so the
    number of rounds can differ by one from a run at a timeout that the
    accumulated float meets exactly, and an infinite timeout has no
    counterpart here.

    The file content of the state is the file as this process sees it when
    no other process writes it in between; other holders of the exclusive
    lock stamp the same file with their own pid and host. *)

From Stdlib Require Import ZArith QArith Qround String List Bool Lia Lqa.
From Stdlib Require Import DecimalString.
Import ListNotations.

Local Open Scope Z_scope.

(** ** Constants of the Python standard library (Linux values) *)

Module fcntl.

Definition LOCK_SH : Z := 1.
Definition LOCK_EX : Z := 2.
Definition LOCK_NB : Z := 4.
Definition LOCK_UN : Z := 8.

End fcntl.

Module errno.

Definition EAGAIN : Z := 11.
Definition EACCES : Z := 13.
Definition EINVAL : Z := 22.

End errno.

(** [str] on a Python integer: its decimal digits, with a sign when negative. *)
Definition str (n : Z) : string := NilZero.string_of_int (Z.to_int n).

(** ** Exceptions and outcomes *)

Inductive exn : Type :=
| LockError (message : string)
| AssertionError
| IOError (error_errno : Z)
| NameError (name : string).

(** A call returns, raises, or is cut off because the recursion bound of the
    model ran out ([Diverge]; [_lock_terminates] shows that it never is). *)
Inductive outcome (A : Type) : Type :=
| Return (a : A)
| Raise (e : exn)
| Diverge.
Arguments Return {A} a.
Arguments Raise {A} e.
Arguments Diverge {A}.

(** ** The state: one [Lock] instance and the lock file it was opened on *)

Inductive hold : Type := Unheld | Shared | Exclusive.

Inductive flock_reply : Type :=
| Granted
| Refused (error_errno : Z).

(** Why a stamp could not be written: the errno of the [IOError] and what
    the failure left in the file ([None] when the file was not touched, as
    when [open] fails; the content left when the file was truncated or
    partly written).  [open] and [write] on a regular file that is opened
    without [O_NONBLOCK] do not fail with EAGAIN. *)
Record write_error : Type := mkWriteError {
  we_errno : Z;
  we_left : option string;
  we_not_EAGAIN : (we_errno =? errno.EAGAIN) = false
}.

Inductive write_reply : Type :=
| Written
| NotWritten (err : write_error).

(** What a failed write leaves in a file that held [before]. *)
Definition left_by (err : write_error) (before : string) : string :=
  match we_left err with
  | Some content => content
  | None => before
  end.

Inductive event : Type :=
| Flock (operation : Z) (reply : flock_reply)
| OpenWrite (data : string)
| OpenWriteFailed (data : string) (error_errno : Z)
| Sleep (seconds : Q).

Record state : Type := mkState {
  _reads : Z;              (* self._reads *)
  _writes : Z;             (* self._writes *)
  os_lock : hold;          (* the flock held through self._fd *)
  file_content : string;   (* content of the file at self._file_path *)
  requests : nat;          (* lock requests answered so far *)
  trace : list event       (* system calls made so far, newest first *)
}.

(** The process and its surroundings: what the k-th lock request is answered
    (the other processes on the file decide that), what a write of the file
    is answered once k lock requests have been answered, the process id and
    the host name. *)
Record environment : Type := mkEnv {
  flock_answer : nat -> flock_reply;
  write_answer : nat -> write_reply;
  getpid : Z;
  getfqdn : string
}.

(** ** The monad of method bodies *)

Definition M (A : Type) : Type := state -> outcome A * state.

Definition ret {A} (a : A) : M A := fun s => (Return a, s).

Definition bind {A B} (m : M A) (k : A -> M B) : M B := fun s =>
  match m s with
  | (Return a, s') => k a s'
  | (Raise e, s') => (Raise e, s')
  | (Diverge, s') => (Diverge, s')
  end.

Definition raise {A} (e : exn) : M A := fun s => (Raise e, s).

Definition diverge {A} : M A := fun s => (Diverge, s).

Definition get {A} (f : state -> A) : M A := fun s => (Return (f s), s).

Definition modify (f : state -> state) : M unit := fun s => (Return tt, f s).

Declare Scope py_scope.
Delimit Scope py_scope with py.
Notation "x <- m ;; k" := (bind m (fun x => k))
  (at level 61, m at next level, right associativity) : py_scope.
Notation "m ;; k" := (bind m (fun _ => k))
  (at level 61, right associativity) : py_scope.
Local Open Scope py_scope.

(** [try: body  except IOError as error: handler error.errno] *)
Definition try_except_IOError {A} (body : M A) (handler : Z -> M A) : M A :=
  fun s =>
    match body s with
    | (Raise (IOError e), s') => handler e s'
    | r => r
    end.

(** [assert cond] *)
Definition assert (cond : bool) : M unit :=
  if cond then ret tt else raise AssertionError.

Definition set_reads (v : Z) (s : state) : state :=
  mkState v (_writes s) (os_lock s) (file_content s) (requests s) (trace s).

Definition set_writes (v : Z) (s : state) : state :=
  mkState (_reads s) v (os_lock s) (file_content s) (requests s) (trace s).

(** ** The operating system *)

Section OS.

Variable env : environment.

(** What a [flock] operation asks for, once [LOCK_NB] is masked out. *)
Definition requested (operation : Z) : option hold :=
  let base := Z.ldiff operation fcntl.LOCK_NB in
  if base =? fcntl.LOCK_SH then Some Shared
  else if base =? fcntl.LOCK_EX then Some Exclusive
  else if base =? fcntl.LOCK_UN then Some Unheld
  else None.

(** [fcntl.flock(self._fd, operation)].  Unlocking always succeeds, also when
    nothing is held.  A request for a lock is answered by the environment:
    granted, or refused with an errno, which Python 2 raises as [IOError];
    a refused request leaves the lock of the descriptor as it was. *)
Definition flock (operation : Z) : M unit := fun s =>
  match requested operation with
  | None =>
      (Raise (IOError errno.EINVAL), s)
  | Some Unheld =>
      (Return tt,
       mkState (_reads s) (_writes s) Unheld (file_content s) (requests s)
               (Flock operation Granted :: trace s))
  | Some mode =>
      match flock_answer env (requests s) with
      | Granted =>
          (Return tt,
           mkState (_reads s) (_writes s) mode (file_content s)
                   (S (requests s)) (Flock operation Granted :: trace s))
      | Refused e =>
          (Raise (IOError e),
           mkState (_reads s) (_writes s) (os_lock s) (file_content s)
                   (S (requests s)) (Flock operation (Refused e) :: trace s))
      end
  end.

(** [with open(self._file_path, 'w') as f: f.write(data)].  When the
    environment lets it through, the file is truncated and [data] becomes
    its whole content; when it does not, [IOError] is raised and the file
    holds what the failure left. *)
Definition open_w_write (data : string) : M unit := fun s =>
  match write_answer env (requests s) with
  | Written =>
      (Return tt,
       mkState (_reads s) (_writes s) (os_lock s) data (requests s)
               (OpenWrite data :: trace s))
  | NotWritten err =>
      (Raise (IOError (we_errno err)),
       mkState (_reads s) (_writes s) (os_lock s)
               (left_by err (file_content s)) (requests s)
               (OpenWriteFailed data (we_errno err) :: trace s))
  end.

(** [time.sleep(seconds)] *)
Definition time_sleep (seconds : Q) : M unit := fun s =>
  (Return tt,
   mkState (_reads s) (_writes s) (os_lock s) (file_content s) (requests s)
           (Sleep seconds :: trace s)).

End OS.

(** The module imports [errno] but never binds the bare name [EACCES]:
    evaluating it raises [NameError]. *)
Definition global_EACCES : M Z := raise (NameError "EACCES"%string).

Definition Qltb (x y : Q) : bool := negb (Qle_bool y x).

(** ** [class Lock] *)

Module Lock.

(** [Lock.__init__]: counters at zero on a freshly opened descriptor;
    [content] is what the file at [file_path] holds. *)
Definition __init__ (content : string) : state :=
  mkState 0 0 Unheld content 0 [].

Section Methods.

Variable env : environment.

Definition stamp : string :=
  ("pid = " ++ str (getpid env) ++ ", host = " ++ getfqdn env)%string.

(** One round of the loop up to the [sleep]: the [try] statement.  The result
    is [true] when the [return] of the [try] body was reached, [false] when
    the handler fell through ([pass]). *)
Definition attempt (op : Z) : M bool :=
  try_except_IOError
    (flock env (Z.lor op fcntl.LOCK_NB) ;;
     (if op =? fcntl.LOCK_EX then open_w_write env stamp else ret tt) ;;
     ret true)
    (fun error_errno =>
       retry <- (if error_errno =? errno.EAGAIN then ret true
                 else (eacces <- global_EACCES ;;
                       ret (error_errno =? eacces))) ;;
       if (retry : bool) then ret false
       else raise (IOError error_errno)).

(** [while total_time < timeout: ...; time.sleep(0.1); total_time += 0.1] *)
Fixpoint poll (fuel : nat) (op : Z) (timeout total_time : Q) : M unit :=
  if Qltb total_time timeout then
    match fuel with
    | O => diverge
    | S fuel' =>
        returned <- attempt op ;;
        if (returned : bool) then ret tt
        else (time_sleep (1 # 10) ;;
              poll fuel' op timeout (total_time + (1 # 10))%Q)
    end
  else ret tt.

(** Rounds that a budget of [timeout] seconds allows at most. *)
Definition rounds (timeout : Q) : nat := Z.to_nat (Qceiling (timeout * 10)).

Definition _lock (op : Z) (timeout : Q) : M unit :=
  poll (rounds timeout) op timeout 0%Q.

(** ** [Lock._unlock] *)

Definition _unlock : M unit := flock env fcntl.LOCK_UN.

(** ** The four public methods *)

Definition acquire_read (timeout : Q) : M unit :=
  reads <- get _reads ;;
  writes <- get _writes ;;
  (if (reads =? 0) && (writes =? 0) then _lock fcntl.LOCK_SH timeout
   else ret tt) ;;
  modify (fun s => set_reads (_reads s + 1) s).

Definition acquire_write (timeout : Q) : M unit :=
  writes <- get _writes ;;
  (if writes =? 0 then
     (reads <- get _reads ;;
      (if negb (reads =? 0) then
         raise (LockError
           "Write lock after read lock illegal due to potential deadlock"%string)
       else ret tt) ;;
      _lock fcntl.LOCK_EX timeout)
   else ret tt) ;;
  modify (fun s => set_writes (_writes s + 1) s).

Definition release_read : M unit :=
  reads <- get _reads ;;
  assert (reads >? 0) ;;
  writes <- get _writes ;;
  (if (reads =? 1) && (writes =? 0) then _unlock else ret tt) ;;
  modify (fun s => set_reads (_reads s - 1) s).

Definition release_write : M unit :=
  writes <- get _writes ;;
  assert (writes >? 0) ;;
  reads <- get _reads ;;
  (if (writes =? 1) && (reads =? 0) then _unlock else ret tt) ;;
  modify (fun s => set_writes (_writes s - 1) s).

End Methods.

End Lock.

(** ** The guards *)

Definition DEFAULT_TIMEOUT : Q := 60.

(** A keyword argument: [None] when the caller leaves it out, and the
    default of the signature is taken. *)
Definition keyword {A} (default : A) (arg : option A) : A :=
  match arg with
  | Some a => a
  | None => default
  end.

(** The guards keep the timeout; the lock they refer to is the instance of
    the state. *)
Module _ReadLockContext.

Record t : Type := mk { _timeout : Q }.

Definition __init__ (timeout : option Q) : t :=
  mk (keyword DEFAULT_TIMEOUT timeout).

Definition __enter__ (env : environment) (self : t) : M unit :=
  Lock.acquire_read env (_timeout self).

Definition __exit__ (env : environment) (self : t) : M unit :=
  Lock.release_read env.

End _ReadLockContext.

Module _WriteLockContext.

Record t : Type := mk { _timeout : Q }.

Definition __init__ (timeout : option Q) : t :=
  mk (keyword DEFAULT_TIMEOUT timeout).

Definition __enter__ (env : environment) (self : t) : M unit :=
  Lock.acquire_write env (_timeout self).

Definition __exit__ (env : environment) (self : t) : M unit :=
  Lock.release_write env.

End _WriteLockContext.

(** [Lock.write_lock] and [Lock.read_lock] pass their own timeout on. *)
Definition write_lock (timeout : option Q) : _WriteLockContext.t :=
  _WriteLockContext.__init__ (Some (keyword DEFAULT_TIMEOUT timeout)).

Definition read_lock (timeout : option Q) : _ReadLockContext.t :=
  _ReadLockContext.__init__ (Some (keyword DEFAULT_TIMEOUT timeout)).

(** ** Sequences of calls on one instance *)

Inductive call : Type :=
| AcquireRead (timeout : Q)
| AcquireWrite (timeout : Q)
| ReleaseRead
| ReleaseWrite.

Definition perform (env : environment) (c : call) : M unit :=
  match c with
  | AcquireRead timeout => Lock.acquire_read env timeout
  | AcquireWrite timeout => Lock.acquire_write env timeout
  | ReleaseRead => Lock.release_read env
  | ReleaseWrite => Lock.release_write env
  end.

(** The caller goes on with the instance whatever a call did: an exception
    is caught and the next call is made on the state it left. *)
Fixpoint run (env : environment) (calls : list call) (s : state) : state :=
  match calls with
  | [] => s
  | c :: rest => run env rest (snd (perform env c s))
  end.

(** ** Reading a run: the events of one call *)

Definition is_grant (e : event) : bool :=
  match e with
  | Flock operation Granted => negb (operation =? fcntl.LOCK_UN)
  | _ => false
  end.

Definition is_write (e : event) : bool :=
  match e with
  | OpenWrite _ | OpenWriteFailed _ _ => true
  | _ => false
  end.

Definition is_request (e : event) : bool :=
  match e with
  | Flock _ _ => true
  | _ => false
  end.

(** The events that a call added when it took [s] to [s']. *)
Definition new_events (s s' : state) : list event :=
  firstn (length (trace s') - length (trace s)) (trace s').

(** The lock that an operation of [_lock] stands for. *)
Definition mode_of (op : Z) : hold :=
  if op =? fcntl.LOCK_EX then Exclusive else Shared.

Definition lock_op (op : Z) : Prop :=
  op = fcntl.LOCK_SH \/ op = fcntl.LOCK_EX.

(** [s'] is [s] after [n] more lock requests that left the events [evs];
    the counters of the instance are untouched. *)
Definition extends (s s' : state) (evs : list event) (n : nat) : Prop :=
  _reads s' = _reads s /\ _writes s' = _writes s /\
  trace s' = evs ++ trace s /\ requests s' = (requests s + n)%nat.

(** The four ways in which the polling loop ends: the lock is granted
    after [n] refusals (and the stamp written, for the exclusive lock), the
    budget runs out after [n] refusals, a request is refused with another
    errno, or the exclusive lock is granted and the stamp cannot be
    written. *)
Inductive lock_result (env : environment) (op : Z) (s : state) :
  outcome unit * state -> Prop :=
| lock_acquired (evs : list event) (n : nat) (s' : state) :
    extends s s' evs (S n) ->
    (forall k, (k < n)%nat ->
       flock_answer env (requests s + k) = Refused errno.EAGAIN) ->
    flock_answer env (requests s + n) = Granted ->
    (op = fcntl.LOCK_EX -> write_answer env (requests s + S n) = Written) ->
    existsb is_grant evs = true ->
    (op = fcntl.LOCK_SH -> existsb is_write evs = false) ->
    os_lock s' = mode_of op ->
    file_content s' =
      (if op =? fcntl.LOCK_EX then Lock.stamp env else file_content s) ->
    lock_result env op s (Return tt, s')
| lock_exhausted (evs : list event) (n : nat) (s' : state) :
    extends s s' evs n ->
    (forall k, (k < n)%nat ->
       flock_answer env (requests s + k) = Refused errno.EAGAIN) ->
    existsb is_grant evs = false ->
    existsb is_write evs = false ->
    os_lock s' = os_lock s ->
    file_content s' = file_content s ->
    lock_result env op s (Return tt, s')
| lock_failed (evs : list event) (n : nat) (e : Z) (s' : state) :
    extends s s' evs (S n) ->
    (forall k, (k < n)%nat ->
       flock_answer env (requests s + k) = Refused errno.EAGAIN) ->
    flock_answer env (requests s + n) = Refused e ->
    e <> errno.EAGAIN ->
    existsb is_grant evs = false ->
    existsb is_write evs = false ->
    os_lock s' = os_lock s ->
    file_content s' = file_content s ->
    lock_result env op s (Raise (NameError "EACCES"), s')
| lock_unstamped (evs : list event) (n : nat) (err : write_error)
    (s' : state) :
    op = fcntl.LOCK_EX ->
    extends s s' evs (S n) ->
    (forall k, (k < n)%nat ->
       flock_answer env (requests s + k) = Refused errno.EAGAIN) ->
    flock_answer env (requests s + n) = Granted ->
    write_answer env (requests s + S n) = NotWritten err ->
    existsb is_grant evs = true ->
    os_lock s' = Exclusive ->
    file_content s' = left_by err (file_content s) ->
    lock_result env op s (Raise (NameError "EACCES"), s').

(** ** Shorthands for the statements *)

(** What an acquisition does with the result of [_lock]: on return the
    counter is raised by [f]; an exception passes through. *)
Definition after_lock {A} (r : outcome A * state) (f : state -> state) :
  outcome unit * state :=
  match r with
  | (Return _, s') => (Return tt, f s')
  | (Raise e, s') => (Raise e, s')
  | (Diverge, s') => (Diverge, s')
  end.

(** The state after [flock(fd, LOCK_UN)]. *)
Definition unlocked (s : state) : state :=
  mkState (_reads s) (_writes s) Unheld (file_content s) (requests s)
          (Flock fcntl.LOCK_UN Granted :: trace s).

(** Calls in a row, as a caller without handlers makes them: the first
    exception ends the sequence. *)
Fixpoint sequence (env : environment) (calls : list call) : M unit :=
  match calls with
  | [] => ret tt
  | c :: rest => (perform env c ;; sequence env rest)%py
  end.

(** The polling loop ran out of its budget: it returned, and none of the
    requests it made was granted. *)
Definition exhausted (env : environment) (op : Z) (timeout : Q) (s : state)
  : bool :=
  match Lock._lock env op timeout s with
  | (Return _, s') => negb (existsb is_grant (new_events s s'))
  | _ => false
  end.

(** A call timed out: it entered the polling loop, and the loop ran out. *)
Definition timed_out (env : environment) (c : call) (s : state) : bool :=
  match c with
  | AcquireRead timeout =>
      (_reads s =? 0) && (_writes s =? 0) &&
      exhausted env fcntl.LOCK_SH timeout s
  | AcquireWrite timeout =>
      (_writes s =? 0) && (_reads s =? 0) &&
      exhausted env fcntl.LOCK_EX timeout s
  | ReleaseRead | ReleaseWrite => false
  end.

(** The stamp could not be written: the polling loop was granted the lock
    and raised all the same. *)
Definition unstamped (env : environment) (op : Z) (timeout : Q) (s : state)
  : bool :=
  match Lock._lock env op timeout s with
  | (Raise _, s') => existsb is_grant (new_events s s')
  | _ => false
  end.

(** A call failed to stamp: it entered the polling loop for the exclusive
    lock, and the loop ended that way. *)
Definition stamp_failed (env : environment) (c : call) (s : state) : bool :=
  match c with
  | AcquireWrite timeout =>
      (_writes s =? 0) && (_reads s =? 0) &&
      unstamped env fcntl.LOCK_EX timeout s
  | AcquireRead _ | ReleaseRead | ReleaseWrite => false
  end.

(** The mode in which the current hold began.  A call that leaves both
    counters at zero ends the hold; an acquisition that takes the instance
    out of that state begins one, shared for [acquire_read] and exclusive
    for [acquire_write]; any other call goes on with the hold [m] that
    there was. *)
Definition began (m : hold) (c : call) (s s' : state) : hold :=
  if (_reads s' =? 0) && (_writes s' =? 0) then Unheld
  else if (_reads s =? 0) && (_writes s =? 0) then
    match c with
    | AcquireRead _ => Shared
    | AcquireWrite _ => Exclusive
    | ReleaseRead | ReleaseWrite => m
    end
  else m.

(** [held_since env m s]: calls lead from a new instance to [s], none of
    them timed out or failed to stamp, and the current hold began in mode
    [m]. *)
Inductive held_since (env : environment) : hold -> state -> Prop :=
| since_init (content : string) :
    held_since env Unheld (Lock.__init__ content)
| since_call (m : hold) (s : state) (c : call) :
    held_since env m s ->
    timed_out env c s = false ->
    stamp_failed env c s = false ->
    held_since env (began m c s (snd (perform env c s)))
               (snd (perform env c s)).

(** Environments and states of the examples. *)
Definition uncontended : environment :=
  mkEnv (fun _ => Granted) (fun _ => Written) 4242 "node1.example.org".

Definition contended : environment :=
  mkEnv (fun _ => Refused errno.EAGAIN) (fun _ => Written) 4242 "node1.example.org".

Definition denied : environment :=
  mkEnv (fun _ => Refused errno.EACCES) (fun _ => Written) 4242 "node1.example.org".

Definition out_of_locks : environment :=
  mkEnv (fun _ => Refused 37) (fun _ => Written) 4242 "node1.example.org".

Definition fresh : state := Lock.__init__ EmptyString.

Definition upgrade_message : string :=
  "Write lock after read lock illegal due to potential deadlock".

(** The invariant that these calls keep: the descriptor holds the lock in
    the mode [m] in which the hold began, under counters that fit. *)
Definition sound (m : hold) (s : state) : Prop :=
  os_lock s = m /\
  ((m = Unheld /\ _reads s = 0 /\ _writes s = 0) \/
   (m = Shared /\ _reads s > 0 /\ _writes s = 0) \/
   (m = Exclusive /\ 0 <= _reads s /\ 0 <= _writes s /\
    _reads s + _writes s > 0)).

(** An environment in which the stamp can always be written. *)
Definition writable (env : environment) : Prop :=
  forall k, write_answer env k = Written.

(** The disk is full: every lock is granted, no stamp can be written. *)
Definition disk_full_error : write_error :=
  mkWriteError 28 (Some EmptyString) eq_refl.

Definition disk_full : environment :=
  mkEnv (fun _ => Granted) (fun _ => NotWritten disk_full_error)
        4242 "node1.example.org".

(** ** Further notions: any run, the events of a round *)

(** What every run keeps, timeouts and errors included: counters that are
    not negative, and a lock on the descriptor only under a counter. *)
Definition safe (env : environment) (s : state) : Prop :=
  (os_lock s = Unheld /\ 0 <= _reads s /\ 0 <= _writes s) \/
  (os_lock s = Shared /\ _reads s > 0 /\ _writes s = 0) \/
  (os_lock s = Exclusive /\ 0 <= _reads s /\ 0 <= _writes s /\
   _reads s + _writes s > 0) \/
  (os_lock s = Exclusive /\ 0 <= _reads s /\ 0 <= _writes s /\
   ~ writable env).



(** The counters that a call aims at. *)
Definition counters_after (c : call) (s : state) : Z * Z :=
  match c with
  | AcquireRead _ => (_reads s + 1, _writes s)
  | AcquireWrite _ => (_reads s, _writes s + 1)
  | ReleaseRead => (_reads s - 1, _writes s)
  | ReleaseWrite => (_reads s, _writes s - 1)
  end.

(** The lock is held elsewhere for the first [n] requests, then free. *)
Definition free_after (n : nat) : environment :=
  mkEnv (fun k => if (k <? n)%nat then Refused errno.EAGAIN else Granted)
        (fun _ => Written) 4242 "node1.example.org".

(** * Properties *)

Ltac fields :=
  cbn [after_lock set_reads set_writes unlocked
       _reads _writes os_lock file_content requests trace fst snd] in *.

Ltac atoms := repeat apply conj; first [lia | congruence].

Ltac shape :=
  fields;
  first [ exfalso; lia
        | left; atoms
        | right; left; atoms
        | right; right; atoms ].

Lemma Qltb_true (x y : Q) : Qltb x y = true <-> (x < y)%Q.
Proof.
  unfold Qltb. rewrite negb_true_iff, <- not_true_iff_false, Qle_bool_iff.
  split; [apply Qnot_le_lt | apply Qlt_not_le].
Qed.

Lemma Qltb_false (x y : Q) : Qltb x y = false <-> (y <= x)%Q.
Proof.
  unfold Qltb. rewrite negb_false_iff. apply Qle_bool_iff.
Qed.

Lemma new_events_app (evs : list event) (s s' : state) :
  trace s' = evs ++ trace s -> new_events s s' = evs.
Proof.
  intros H. unfold new_events. rewrite H, length_app.
  replace (length evs + length (trace s) - length (trace s))%nat
    with (length evs + 0)%nat by lia.
  rewrite firstn_app_2. cbn. apply app_nil_r.
Qed.

Lemma new_events_same (s : state) : new_events s s = [].
Proof. apply new_events_app. reflexivity. Qed.

Section Rounds.

Variable env : environment.

(** ** One round of the loop *)

Lemma attempt_granted (op : Z) (s : state) :
  lock_op op ->
  flock_answer env (requests s) = Granted ->
  (op = fcntl.LOCK_EX -> write_answer env (S (requests s)) = Written) ->
  Lock.attempt env op s =
  (Return true,
   mkState (_reads s) (_writes s) (mode_of op)
           (if op =? fcntl.LOCK_EX then Lock.stamp env else file_content s)
           (S (requests s))
           ((if op =? fcntl.LOCK_EX then [OpenWrite (Lock.stamp env)] else [])
            ++ Flock (Z.lor op fcntl.LOCK_NB) Granted :: trace s)).
Proof.
  intros [-> | ->] Hans Hwr;
    unfold Lock.attempt, try_except_IOError, bind, flock, open_w_write; cbn;
    rewrite Hans; cbn; rewrite ?(Hwr eq_refl); reflexivity.
Qed.

Lemma attempt_unstamped (err : write_error) (s : state) :
  flock_answer env (requests s) = Granted ->
  write_answer env (S (requests s)) = NotWritten err ->
  Lock.attempt env fcntl.LOCK_EX s =
  (Raise (NameError "EACCES"),
   mkState (_reads s) (_writes s) Exclusive (left_by err (file_content s))
           (S (requests s))
           (OpenWriteFailed (Lock.stamp env) (we_errno err)
            :: Flock (Z.lor fcntl.LOCK_EX fcntl.LOCK_NB) Granted :: trace s)).
Proof.
  intros Hans Hwr.
  unfold Lock.attempt, try_except_IOError, bind, flock, open_w_write; cbn.
  rewrite Hans. cbn. rewrite Hwr. cbn.
  rewrite (we_not_EAGAIN err). reflexivity.
Qed.

Lemma attempt_busy (op : Z) (s : state) :
  lock_op op ->
  flock_answer env (requests s) = Refused errno.EAGAIN ->
  Lock.attempt env op s =
  (Return false,
   mkState (_reads s) (_writes s) (os_lock s) (file_content s)
           (S (requests s))
           (Flock (Z.lor op fcntl.LOCK_NB) (Refused errno.EAGAIN) :: trace s)).
Proof.
  intros [-> | ->] Hans;
    unfold Lock.attempt, try_except_IOError, bind, flock; cbn;
    rewrite Hans; reflexivity.
Qed.

Lemma attempt_error (op e : Z) (s : state) :
  lock_op op ->
  e <> errno.EAGAIN ->
  flock_answer env (requests s) = Refused e ->
  Lock.attempt env op s =
  (Raise (NameError "EACCES"),
   mkState (_reads s) (_writes s) (os_lock s) (file_content s)
           (S (requests s))
           (Flock (Z.lor op fcntl.LOCK_NB) (Refused e) :: trace s)).
Proof.
  intros [-> | ->] Hne Hans;
    unfold Lock.attempt, try_except_IOError, bind, flock; cbn;
    rewrite Hans; cbn;
    destruct (Z.eqb_spec e errno.EAGAIN) as [Heq | _];
    try contradiction; reflexivity.
Qed.

(** ** The loop *)

Lemma poll_unfold (fuel : nat) (op : Z) (timeout total_time : Q) :
  Lock.poll env fuel op timeout total_time =
  if Qltb total_time timeout then
    match fuel with
    | O => diverge
    | S fuel' =>
        (returned <- Lock.attempt env op ;;
         if (returned : bool) then ret tt
         else (time_sleep (1 # 10) ;;
               Lock.poll env fuel' op timeout (total_time + (1 # 10))%Q))%py
    end
  else ret tt.
Proof. destruct fuel; reflexivity. Qed.

(** With a bound that covers the budget left, the loop ends in one of the
    three ways of [lock_result]; it is never cut off. *)
Lemma poll_result (op : Z) (timeout : Q) :
  lock_op op ->
  forall (fuel : nat) (total_time : Q) (s : state),
    ((timeout - total_time) * 10 <= inject_Z (Z.of_nat fuel))%Q ->
    lock_result env op s (Lock.poll env fuel op timeout total_time s).
Proof.
  intros Hop fuel.
  induction fuel as [| fuel IH]; intros total_time s Hfuel;
    rewrite poll_unfold;
    destruct (Qltb total_time timeout) eqn:Hlt.
  - apply Qltb_true in Hlt. change (inject_Z (Z.of_nat 0)) with 0%Q in Hfuel.
    lra.
  - apply (lock_exhausted env op s [] 0); try reflexivity.
    + unfold extends. cbn. repeat split. lia.
    + intros k Hk. lia.
  - apply Qltb_true in Hlt. unfold bind.
    destruct (flock_answer env (requests s)) as [| e] eqn:Hans.
    + assert (Hstamp :
        (op = fcntl.LOCK_EX ->
         write_answer env (S (requests s)) = Written) \/
        (exists err, op = fcntl.LOCK_EX /\
           write_answer env (S (requests s)) = NotWritten err)).
      { destruct (write_answer env (S (requests s))) as [| err];
          [left; reflexivity |].
        destruct Hop as [-> | ->]; [left; discriminate |].
        right. exists err. auto. }
      destruct Hstamp as [Hwr | (err & -> & Hwr)].
      * rewrite (attempt_granted op s Hop Hans Hwr). unfold ret.
        apply (lock_acquired env op s
                 ((if op =? fcntl.LOCK_EX then [OpenWrite (Lock.stamp env)]
                   else []) ++ [Flock (Z.lor op fcntl.LOCK_NB) Granted]) 0);
          cbn [_reads _writes os_lock file_content requests trace].
        -- unfold extends. cbn [_reads _writes requests trace].
           rewrite <- app_assoc. repeat split. lia.
        -- intros k Hk. lia.
        -- rewrite Nat.add_0_r. exact Hans.
        -- rewrite Nat.add_1_r. exact Hwr.
        -- destruct Hop as [-> | ->]; reflexivity.
        -- intros ->. reflexivity.
        -- reflexivity.
        -- reflexivity.
      * rewrite (attempt_unstamped err s Hans Hwr).
        apply (lock_unstamped env fcntl.LOCK_EX s
                 [OpenWriteFailed (Lock.stamp env) (we_errno err);
                  Flock (Z.lor fcntl.LOCK_EX fcntl.LOCK_NB) Granted] 0 err);
          cbn [_reads _writes os_lock file_content requests trace];
          try reflexivity.
        -- unfold extends. cbn [_reads _writes requests trace].
           repeat split. lia.
        -- intros k Hk. lia.
        -- rewrite Nat.add_0_r. exact Hans.
        -- rewrite Nat.add_1_r. exact Hwr.
    + destruct (Z.eq_dec e errno.EAGAIN) as [-> | Hne].
      * rewrite (attempt_busy op s Hop Hans). unfold time_sleep. cbn [trace].
        set (round := [Sleep (1 # 10);
                       Flock (Z.lor op fcntl.LOCK_NB) (Refused errno.EAGAIN)]).
        match goal with
        | |- lock_result _ _ _ (Lock.poll _ _ _ _ ?t ?s1) =>
            assert (Hrec : lock_result env op s1
                             (Lock.poll env fuel op timeout t s1));
            [ | set (s1' := s1) in *;
                set (r := Lock.poll env fuel op timeout t s1') in *;
                clearbody r ]
        end.
        { apply IH. rewrite Nat2Z.inj_succ in Hfuel. unfold Z.succ in Hfuel.
          rewrite inject_Z_plus in Hfuel.
          change (inject_Z 1) with 1%Q in Hfuel. lra. }
        assert (Hshift : forall n k, (k < S n)%nat ->
                  (forall j, (j < n)%nat ->
                     flock_answer env (requests s1' + j) =
                     Refused errno.EAGAIN) ->
                  flock_answer env (requests s + k) = Refused errno.EAGAIN).
        { intros n k Hk Hall. destruct k as [| k].
          - rewrite Nat.add_0_r. exact Hans.
          - rewrite Nat.add_succ_r. apply (Hall k). lia. }
        assert (Hext' : forall s' evs n, extends s1' s' evs n ->
                  extends s s' (evs ++ round) (S n)).
        { intros s' evs n (Hr & Hwr & Htr & Hrq). unfold extends.
          rewrite <- app_assoc. subst s1'.
          cbn [_reads _writes requests trace] in *.
          repeat split; auto. lia. }
        destruct Hrec as [evs n s' Hext Hbusy Hgr Hwa Hg Hw Hos Hfile
                         | evs n s' Hext Hbusy Hg Hw Hos Hfile
                         | evs n e s' Hext Hbusy Hrf Hne Hg Hw Hos Hfile
                         | evs n err s' Hex Hext Hbusy Hgr Hwa Hg Hos Hfile].
        -- apply (lock_acquired env op s (evs ++ round) (S n)); auto.
           ++ intros k Hk. apply (Hshift n k Hk Hbusy).
           ++ rewrite Nat.add_succ_r. exact Hgr.
           ++ intros Hex. rewrite Nat.add_succ_r. exact (Hwa Hex).
           ++ rewrite existsb_app, Hg. reflexivity.
           ++ intros Hsh. rewrite existsb_app, (Hw Hsh). reflexivity.
        -- apply (lock_exhausted env op s (evs ++ round) (S n)); auto.
           ++ intros k Hk. apply (Hshift n k Hk Hbusy).
           ++ rewrite existsb_app, Hg. reflexivity.
           ++ rewrite existsb_app, Hw. reflexivity.
        -- apply (lock_failed env op s (evs ++ round) (S n) e); auto.
           ++ intros k Hk. apply (Hshift n k Hk Hbusy).
           ++ rewrite Nat.add_succ_r. exact Hrf.
           ++ rewrite existsb_app, Hg. reflexivity.
           ++ rewrite existsb_app, Hw. reflexivity.
        -- apply (lock_unstamped env op s (evs ++ round) (S n) err); auto.
           ++ intros k Hk. apply (Hshift n k Hk Hbusy).
           ++ rewrite Nat.add_succ_r. exact Hgr.
           ++ rewrite Nat.add_succ_r. exact Hwa.
           ++ rewrite existsb_app, Hg. reflexivity.
      * rewrite (attempt_error op e s Hop Hne Hans).
        apply (lock_failed env op s
                 [Flock (Z.lor op fcntl.LOCK_NB) (Refused e)] 0 e);
          cbn [_reads _writes os_lock file_content requests trace];
          try reflexivity; auto.
        -- unfold extends. cbn [_reads _writes requests trace].
           repeat split. lia.
        -- intros k Hk. lia.
        -- rewrite Nat.add_0_r. exact Hans.
  - apply (lock_exhausted env op s [] 0); try reflexivity.
    + unfold extends. cbn. repeat split. lia.
    + intros k Hk. lia.
Qed.

End Rounds.

(** ** The methods, case by case *)

Section MethodCases.

Variable env : environment.

Lemma rounds_cover (timeout : Q) :
  ((timeout - 0) * 10 <= inject_Z (Z.of_nat (Lock.rounds timeout)))%Q.
Proof.
  unfold Lock.rounds.
  pose proof (Qle_ceiling (timeout * 10)) as Hceil.
  assert (Hmono : (inject_Z (Qceiling (timeout * 10)) <=
                   inject_Z (Z.of_nat (Z.to_nat (Qceiling (timeout * 10)))))%Q).
  { rewrite <- Zle_Qle. lia. }
  lra.
Qed.

(** [_lock] always ends, in one of the three ways of [lock_result]. *)
Lemma _lock_result (op : Z) (timeout : Q) (s : state) :
  lock_op op -> lock_result env op s (Lock._lock env op timeout s).
Proof.
  intros Hop. unfold Lock._lock.
  apply (poll_result env op timeout Hop). apply rounds_cover.
Qed.

Lemma _lock_terminates (op : Z) (timeout : Q) (s : state) :
  lock_op op -> fst (Lock._lock env op timeout s) <> Diverge.
Proof.
  intros Hop. destruct (_lock_result op timeout s Hop); cbn; discriminate.
Qed.

Lemma acquire_read_first (timeout : Q) (s : state) :
  _reads s = 0 -> _writes s = 0 ->
  Lock.acquire_read env timeout s =
  after_lock (Lock._lock env fcntl.LOCK_SH timeout s)
             (fun s' => set_reads (_reads s' + 1) s').
Proof.
  intros Hr Hw. unfold Lock.acquire_read, bind, get, modify, after_lock.
  rewrite Hr, Hw. cbn [Z.eqb andb].
  destruct (Lock._lock env fcntl.LOCK_SH timeout s) as [[[] | e |] s'];
    reflexivity.
Qed.

Lemma acquire_read_nested (timeout : Q) (s : state) :
  _reads s <> 0 \/ _writes s <> 0 ->
  Lock.acquire_read env timeout s =
  (Return tt, set_reads (_reads s + 1) s).
Proof.
  intros H. unfold Lock.acquire_read, bind, get, modify, ret.
  destruct (Z.eqb_spec (_reads s) 0) as [Hr | Hr];
    destruct (Z.eqb_spec (_writes s) 0) as [Hw | Hw];
    try reflexivity.
  destruct H; contradiction.
Qed.

Lemma acquire_write_first (timeout : Q) (s : state) :
  _writes s = 0 -> _reads s = 0 ->
  Lock.acquire_write env timeout s =
  after_lock (Lock._lock env fcntl.LOCK_EX timeout s)
             (fun s' => set_writes (_writes s' + 1) s').
Proof.
  intros Hw Hr.
  unfold Lock.acquire_write, bind, get, modify, ret, after_lock.
  rewrite Hw. cbn [Z.eqb]. rewrite Hr. cbn [Z.eqb negb].
  destruct (Lock._lock env fcntl.LOCK_EX timeout s) as [[[] | e |] s'];
    reflexivity.
Qed.

Lemma acquire_write_upgrade (timeout : Q) (s : state) :
  _writes s = 0 -> _reads s <> 0 ->
  Lock.acquire_write env timeout s =
  (Raise (LockError
     "Write lock after read lock illegal due to potential deadlock"), s).
Proof.
  intros Hw Hr. unfold Lock.acquire_write, bind, get, raise.
  rewrite Hw. cbn [Z.eqb].
  destruct (Z.eqb_spec (_reads s) 0) as [H0 | _]; [contradiction |].
  reflexivity.
Qed.

Lemma acquire_write_nested (timeout : Q) (s : state) :
  _writes s <> 0 ->
  Lock.acquire_write env timeout s =
  (Return tt, set_writes (_writes s + 1) s).
Proof.
  intros Hw. unfold Lock.acquire_write, bind, get, modify, ret.
  destruct (Z.eqb_spec (_writes s) 0) as [H0 | _]; [contradiction |].
  reflexivity.
Qed.

Lemma release_read_unheld (s : state) :
  _reads s <= 0 -> Lock.release_read env s = (Raise AssertionError, s).
Proof.
  intros H. unfold Lock.release_read, bind, get, assert, raise.
  destruct (Z.gtb_spec (_reads s) 0) as [Hgt | _]; [lia | reflexivity].
Qed.

Lemma release_read_last (s : state) :
  _reads s = 1 -> _writes s = 0 ->
  Lock.release_read env s = (Return tt, set_reads 0 (unlocked s)).
Proof.
  intros Hr Hw. unfold Lock.release_read, bind, get, assert, modify.
  rewrite Hr. cbn [Z.gtb Z.compare]. unfold ret. rewrite Hw.
  unfold set_reads, unlocked. cbn. rewrite Hr, Hw. reflexivity.
Qed.

Lemma release_read_inner (s : state) :
  _reads s > 0 -> _reads s <> 1 \/ _writes s <> 0 ->
  Lock.release_read env s = (Return tt, set_reads (_reads s - 1) s).
Proof.
  intros Hpos H. unfold Lock.release_read, bind, get, assert, modify, ret.
  destruct (Z.gtb_spec (_reads s) 0) as [_ | Hle]; [| lia].
  destruct (Z.eqb_spec (_reads s) 1) as [Hr | Hr];
    destruct (Z.eqb_spec (_writes s) 0) as [Hw | Hw];
    try reflexivity.
  destruct H; contradiction.
Qed.

Lemma release_write_unheld (s : state) :
  _writes s <= 0 -> Lock.release_write env s = (Raise AssertionError, s).
Proof.
  intros H. unfold Lock.release_write, bind, get, assert, raise.
  destruct (Z.gtb_spec (_writes s) 0) as [Hgt | _]; [lia | reflexivity].
Qed.

Lemma release_write_last (s : state) :
  _writes s = 1 -> _reads s = 0 ->
  Lock.release_write env s = (Return tt, set_writes 0 (unlocked s)).
Proof.
  intros Hw Hr. unfold Lock.release_write, bind, get, assert, modify.
  rewrite Hw. cbn [Z.gtb Z.compare]. unfold ret. rewrite Hr.
  unfold set_writes, unlocked. cbn. rewrite Hr, Hw. reflexivity.
Qed.

Lemma release_write_inner (s : state) :
  _writes s > 0 -> _writes s <> 1 \/ _reads s <> 0 ->
  Lock.release_write env s = (Return tt, set_writes (_writes s - 1) s).
Proof.
  intros Hpos H. unfold Lock.release_write, bind, get, assert, modify, ret.
  destruct (Z.gtb_spec (_writes s) 0) as [_ | Hle]; [| lia].
  destruct (Z.eqb_spec (_writes s) 1) as [Hw | Hw];
    destruct (Z.eqb_spec (_reads s) 0) as [Hr | Hr];
    try reflexivity.
  destruct H; contradiction.
Qed.

End MethodCases.

(** * The claims *)

(** ** Timeouts *)

(** C1. The claim asks for a timeout failure when the loop runs out of its
    budget.  The code returns instead: with the lock held elsewhere for good,
    [acquire_read] with a budget of 0.2 s makes two requests, both refused,
    and returns normally with [_reads = 1]; so does [acquire_write]. *)
Theorem timeout_returns_normally :
  Lock.acquire_read contended (2 # 10) fresh =
    (Return tt,
     mkState 1 0 Unheld EmptyString 2
       [Sleep (1 # 10); Flock 5 (Refused errno.EAGAIN);
        Sleep (1 # 10); Flock 5 (Refused errno.EAGAIN)]) /\
  Lock.acquire_write contended (2 # 10) fresh =
    (Return tt,
     mkState 0 1 Unheld EmptyString 2
       [Sleep (1 # 10); Flock 6 (Refused errno.EAGAIN);
        Sleep (1 # 10); Flock 6 (Refused errno.EAGAIN)]).
Proof. split; vm_compute; reflexivity. Qed.

(** With every request refused as would-block the loop runs out: [_lock]
    returns, and nothing but the log of requests has changed. *)
Lemma _lock_contended (env : environment) (op : Z) (timeout : Q) (s : state) :
  lock_op op ->
  (forall k, flock_answer env (requests s + k) = Refused errno.EAGAIN) ->
  exists s',
    Lock._lock env op timeout s = (Return tt, s') /\
    _reads s' = _reads s /\ _writes s' = _writes s /\
    os_lock s' = os_lock s /\ file_content s' = file_content s /\
    existsb is_grant (new_events s s') = false.
Proof.
  intros Hop Hbusy.
  destruct (_lock_result env op timeout s Hop)
    as [evs n s' Hext _ Hgr _ _ _ _ _
       | evs n s' Hext _ Hg _ Hos Hfile
       | evs n e s' Hext _ Hrf Hne _ _ _ _
       | evs n err s' _ Hext _ Hgr _ _ _ _].
  - rewrite Hbusy in Hgr. discriminate.
  - destruct Hext as (Hr & Hw & Htr & _).
    exists s'. rewrite (new_events_app evs s s' Htr). auto 10.
  - rewrite Hbusy in Hrf. congruence.
  - rewrite Hbusy in Hgr. discriminate.
Qed.

(** C9. When every request of the polling loop is refused as would-block,
    [acquire_read] (resp. [acquire_write]) on an unlocked instance returns
    normally with its counter at 1 although no request was granted and the
    descriptor holds no lock; the matching release then returns normally
    and issues one unlock request, for a lock that is not held. *)
Theorem timeout_counts_as_acquired
  (env : environment) (timeout : Q) (s : state) :
  _reads s = 0 -> _writes s = 0 -> os_lock s = Unheld ->
  (forall k, flock_answer env (requests s + k) = Refused errno.EAGAIN) ->
  (exists s1 s2,
     Lock.acquire_read env timeout s = (Return tt, s1) /\
     _reads s1 = 1 /\ _writes s1 = 0 /\ os_lock s1 = Unheld /\
     existsb is_grant (new_events s s1) = false /\
     Lock.release_read env s1 = (Return tt, s2) /\
     new_events s1 s2 = [Flock fcntl.LOCK_UN Granted]) /\
  (exists s1 s2,
     Lock.acquire_write env timeout s = (Return tt, s1) /\
     _reads s1 = 0 /\ _writes s1 = 1 /\ os_lock s1 = Unheld /\
     existsb is_grant (new_events s s1) = false /\
     Lock.release_write env s1 = (Return tt, s2) /\
     new_events s1 s2 = [Flock fcntl.LOCK_UN Granted]).
Proof.
  intros Hr Hw Hos Hbusy. split.
  - destruct (_lock_contended env fcntl.LOCK_SH timeout s (or_introl eq_refl)
                Hbusy) as (s' & Hrun & Hr' & Hw' & Hos' & _ & Hg).
    exists (set_reads (_reads s' + 1) s').
    exists (set_reads 0 (unlocked (set_reads (_reads s' + 1) s'))).
    rewrite (acquire_read_first env timeout s Hr Hw), Hrun.
    cbn [after_lock]. repeat apply conj.
    + reflexivity.
    + cbn. lia.
    + cbn. congruence.
    + cbn. congruence.
    + exact Hg.
    + apply release_read_last; cbn; lia.
    + apply new_events_app. reflexivity.
  - destruct (_lock_contended env fcntl.LOCK_EX timeout s (or_intror eq_refl)
                Hbusy) as (s' & Hrun & Hr' & Hw' & Hos' & _ & Hg).
    exists (set_writes (_writes s' + 1) s').
    exists (set_writes 0 (unlocked (set_writes (_writes s' + 1) s'))).
    rewrite (acquire_write_first env timeout s Hw Hr), Hrun.
    cbn [after_lock]. repeat apply conj.
    + reflexivity.
    + cbn. congruence.
    + cbn. lia.
    + cbn. congruence.
    + exact Hg.
    + apply release_write_last; cbn; lia.
    + apply new_events_app. reflexivity.
Qed.

Lemma timeout_counts_as_acquired_witness :
  (_reads fresh = 0 /\ _writes fresh = 0 /\ os_lock fresh = Unheld) /\
  (exists s1 s2,
     Lock.acquire_read contended (2 # 10) fresh = (Return tt, s1) /\
     _reads s1 = 1 /\ _writes s1 = 0 /\ os_lock s1 = Unheld /\
     existsb is_grant (new_events fresh s1) = false /\
     Lock.release_read contended s1 = (Return tt, s2) /\
     new_events s1 s2 = [Flock fcntl.LOCK_UN Granted]) /\
  (exists s1 s2,
     Lock.acquire_write contended (2 # 10) fresh = (Return tt, s1) /\
     _reads s1 = 0 /\ _writes s1 = 1 /\ os_lock s1 = Unheld /\
     existsb is_grant (new_events fresh s1) = false /\
     Lock.release_write contended s1 = (Return tt, s2) /\
     new_events s1 s2 = [Flock fcntl.LOCK_UN Granted]).
Proof.
  split; [repeat split |].
  apply (timeout_counts_as_acquired contended (2 # 10) fresh);
    reflexivity.
Defined.

(** ** Upgrades *)

(** C3, as the code has it.  In a state with [_reads > 0] and [_writes = 0],
    [acquire_write] raises [LockError] and [_writes] is 0 afterwards. *)
Theorem upgrade_fails (env : environment) (timeout : Q) (s : state) :
  _reads s > 0 -> _writes s = 0 ->
  fst (Lock.acquire_write env timeout s) = Raise (LockError upgrade_message) /\
  _writes (snd (Lock.acquire_write env timeout s)) = 0.
Proof.
  intros Hr Hw.
  rewrite (acquire_write_upgrade env timeout s Hw) by lia.
  split; [reflexivity | exact Hw].
Qed.

Lemma upgrade_fails_witness :
  (_reads (run uncontended [AcquireRead 1] fresh) > 0 /\
   _writes (run uncontended [AcquireRead 1] fresh) = 0) /\
  fst (Lock.acquire_write uncontended 1 (run uncontended [AcquireRead 1] fresh))
    = Raise (LockError upgrade_message) /\
  _writes (snd (Lock.acquire_write uncontended 1
                  (run uncontended [AcquireRead 1] fresh))) = 0.
Proof.
  split; [split; reflexivity |].
  apply (upgrade_fails uncontended 1 (run uncontended [AcquireRead 1] fresh));
    reflexivity.
Defined.

(** C3 as stated fails.  After [acquire_write] and [acquire_read] the
    instance has [_reads = 1] and [_writes = 1]; a further [acquire_write]
    is a nested exclusive acquisition: it returns and [_writes] becomes 2. *)
Lemma upgrade_fails_counterexample :
  ~ (forall (env : environment) (calls : list call) (content : string)
            (timeout : Q),
       let s := run env calls (Lock.__init__ content) in
       _reads s > 0 ->
       (exists message,
          fst (Lock.acquire_write env timeout s) = Raise (LockError message))
       /\ _writes (snd (Lock.acquire_write env timeout s)) = 0).
Proof.
  intros H.
  specialize (H uncontended [AcquireWrite 1; AcquireRead 1] EmptyString 1%Q).
  destruct H as [_ Hwrites]; [reflexivity |].
  vm_compute in Hwrites. discriminate.
Qed.

(** C4. In a state with [_writes = 0] and [_reads <> 0], [acquire_write]
    raises [LockError] and leaves the whole state as it was: both counters,
    the lock of the descriptor, the file, and the log of system calls, to
    which no request has been added. *)
Theorem upgrade_error_is_atomic (env : environment) (timeout : Q) (s : state) :
  _writes s = 0 -> _reads s <> 0 ->
  Lock.acquire_write env timeout s = (Raise (LockError upgrade_message), s) /\
  existsb is_request
    (new_events s (snd (Lock.acquire_write env timeout s))) = false /\
  requests (snd (Lock.acquire_write env timeout s)) = requests s.
Proof.
  intros Hw Hr.
  rewrite (acquire_write_upgrade env timeout s Hw Hr).
  cbn [snd]. rewrite new_events_same. repeat split.
Qed.

Lemma upgrade_error_is_atomic_witness :
  let s := run uncontended [AcquireRead 1; AcquireRead 1] fresh in
  (_writes s = 0 /\ _reads s <> 0) /\
  Lock.acquire_write uncontended 1 s =
    (Raise (LockError upgrade_message), s) /\
  existsb is_request
    (new_events s (snd (Lock.acquire_write uncontended 1 s))) = false /\
  requests (snd (Lock.acquire_write uncontended 1 s)) = requests s.
Proof.
  split; [split; [reflexivity | discriminate] |].
  apply (upgrade_error_is_atomic uncontended 1
           (run uncontended [AcquireRead 1; AcquireRead 1] fresh));
    [reflexivity | discriminate].
Defined.

(** ** Releases without a matching acquisition *)

(** C7. [release_read] with [_reads = 0] and [release_write] with
    [_writes = 0] raise [AssertionError]; the state, and with it the lock
    of the descriptor, is as before. *)
Theorem release_unheld_asserts (env : environment) (s : state) :
  (_reads s = 0 -> Lock.release_read env s = (Raise AssertionError, s)) /\
  (_writes s = 0 -> Lock.release_write env s = (Raise AssertionError, s)).
Proof.
  split; intros H.
  - apply release_read_unheld. lia.
  - apply release_write_unheld. lia.
Qed.

Lemma release_unheld_asserts_witness :
  (_reads fresh = 0 /\ _writes fresh = 0) /\
  Lock.release_read uncontended fresh = (Raise AssertionError, fresh) /\
  Lock.release_write uncontended fresh = (Raise AssertionError, fresh).
Proof.
  split; [split; reflexivity |].
  split.
  - apply (proj1 (release_unheld_asserts uncontended fresh)). reflexivity.
  - apply (proj2 (release_unheld_asserts uncontended fresh)). reflexivity.
Defined.

(** ** Default timeout *)

(** C10. Without an explicit timeout, [read_lock], [write_lock] and the two
    guard constructors give a guard whose timeout is [DEFAULT_TIMEOUT], 60
    seconds, which entering the guard passes to the acquisition; it is not
    the 300 seconds (5 minutes) of the docstrings. *)
Theorem default_timeout_is_60 (env : environment) :
  _ReadLockContext._timeout (read_lock None) = 60%Q /\
  _WriteLockContext._timeout (write_lock None) = 60%Q /\
  _ReadLockContext._timeout (_ReadLockContext.__init__ None) = 60%Q /\
  _WriteLockContext._timeout (_WriteLockContext.__init__ None) = 60%Q /\
  _ReadLockContext.__enter__ env (read_lock None) =
    Lock.acquire_read env 60 /\
  _WriteLockContext.__enter__ env (write_lock None) =
    Lock.acquire_write env 60 /\
  ~ (DEFAULT_TIMEOUT == 5 * 60)%Q.
Proof.
  repeat apply conj; try reflexivity.
  unfold DEFAULT_TIMEOUT. intros H. vm_compute in H. discriminate.
Qed.

(** ** Errors of the lock request *)

(** A would-block refusal is followed by a sleep of a tenth of a second and
    the next round, with a tenth of a second more on the clock. *)
Lemma would_block_sleeps_and_retries
  (env : environment) (fuel : nat) (op : Z) (timeout total_time : Q)
  (s : state) :
  lock_op op ->
  (total_time < timeout)%Q ->
  flock_answer env (requests s) = Refused errno.EAGAIN ->
  Lock.poll env (S fuel) op timeout total_time s =
  Lock.poll env fuel op timeout (total_time + (1 # 10))%Q
    (mkState (_reads s) (_writes s) (os_lock s) (file_content s)
       (S (requests s))
       (Sleep (1 # 10)
        :: Flock (Z.lor op fcntl.LOCK_NB) (Refused errno.EAGAIN) :: trace s)).
Proof.
  intros Hop Hlt Hans. rewrite poll_unfold.
  apply Qltb_true in Hlt. rewrite Hlt. unfold bind.
  rewrite (attempt_busy env op s Hop Hans). reflexivity.
Qed.

(** Whatever the errno of a refused request, the exception that leaves
    [_lock] is the [NameError] of the handler, never the [IOError]. *)
Lemma _lock_raises_only_NameError
  (env : environment) (op : Z) (timeout : Q) (s : state) (e : exn) :
  lock_op op ->
  fst (Lock._lock env op timeout s) = Raise e ->
  e = NameError "EACCES".
Proof.
  intros Hop H.
  destruct (_lock_result env op timeout s Hop); cbn in H; congruence.
Qed.

(** C6. The claim has EACCES retried like EAGAIN and every other error of
    the request propagated as it is.  The handler compares with the unbound
    name [EACCES]: a request refused with EACCES is not retried, and one
    refused with another errno (here ENOLCK, 37) does not reach the caller;
    both calls end at the first round with [NameError]. *)
Theorem refused_request_raises_NameError :
  Lock._lock denied fcntl.LOCK_SH 1 fresh =
    (Raise (NameError "EACCES"),
     mkState 0 0 Unheld EmptyString 1 [Flock 5 (Refused errno.EACCES)]) /\
  Lock._lock out_of_locks fcntl.LOCK_EX 1 fresh =
    (Raise (NameError "EACCES"),
     mkState 0 0 Unheld EmptyString 1 [Flock 6 (Refused 37)]).
Proof. split; vm_compute; reflexivity. Qed.

(** ** The ownership stamp *)

(** C8. An [acquire_write] from [_writes = 0] that returns with a request
    granted leaves the file holding exactly ["pid = "], the decimal process
    id, [", host = "] and the host name; [acquire_read] never opens the file
    for writing and leaves its content as it was. *)
Theorem stamp_on_exclusive_acquisition
  (env : environment) (timeout : Q) (s : state) :
  (_writes s = 0 ->
   fst (Lock.acquire_write env timeout s) = Return tt ->
   existsb is_grant
     (new_events s (snd (Lock.acquire_write env timeout s))) = true ->
   file_content (snd (Lock.acquire_write env timeout s)) =
     ("pid = " ++ str (getpid env) ++ ", host = " ++ getfqdn env)%string) /\
  file_content (snd (Lock.acquire_read env timeout s)) = file_content s /\
  existsb is_write
    (new_events s (snd (Lock.acquire_read env timeout s))) = false.
Proof.
  split; [| split].
  - intros Hw Hret Hgrant.
    destruct (Z.eq_dec (_reads s) 0) as [Hr | Hr].
    + rewrite (acquire_write_first env timeout s Hw Hr) in *.
      destruct (_lock_result env fcntl.LOCK_EX timeout s (or_intror eq_refl))
        as [evs n s' Hext _ _ _ _ _ _ Hfile
           | evs n s' Hext _ Hg _ _ _
           | evs n e s' Hext _ _ _ _ _ _ _
           | evs n err s' _ Hext _ _ _ _ _ _];
        cbn [after_lock fst snd] in *.
      * exact Hfile.
      * destruct Hext as (_ & _ & Htr & _).
        change (new_events s (set_writes (_writes s' + 1) s'))
          with (new_events s s') in Hgrant.
        rewrite (new_events_app evs s s' Htr) in Hgrant. congruence.
      * discriminate.
      * discriminate.
    + rewrite (acquire_write_upgrade env timeout s Hw Hr) in Hret.
      discriminate.
  - destruct (Z.eq_dec (_reads s) 0) as [Hr | Hr];
      [destruct (Z.eq_dec (_writes s) 0) as [Hw | Hw] |].
    + rewrite (acquire_read_first env timeout s Hr Hw).
      destruct (_lock_result env fcntl.LOCK_SH timeout s (or_introl eq_refl));
        cbn; try assumption; discriminate.
    + rewrite acquire_read_nested by auto. reflexivity.
    + rewrite acquire_read_nested by auto. reflexivity.
  - destruct (Z.eq_dec (_reads s) 0) as [Hr | Hr];
      [destruct (Z.eq_dec (_writes s) 0) as [Hw | Hw] |].
    + rewrite (acquire_read_first env timeout s Hr Hw).
      destruct (_lock_result env fcntl.LOCK_SH timeout s (or_introl eq_refl))
        as [evs n s' Hext _ _ _ _ Hwr _ _
           | evs n s' Hext _ _ Hwr _ _
           | evs n e s' Hext _ _ _ _ Hwr _ _
           | evs n err s' Hex Hext _ _ _ _ _ _];
        try discriminate Hex;
        cbn [after_lock snd];
        destruct Hext as (_ & _ & Htr & _).
      * change (new_events s (set_reads (_reads s' + 1) s'))
          with (new_events s s').
        rewrite (new_events_app evs s s' Htr). auto.
      * change (new_events s (set_reads (_reads s' + 1) s'))
          with (new_events s s').
        rewrite (new_events_app evs s s' Htr). auto.
      * rewrite (new_events_app evs s s' Htr). auto.
    + rewrite acquire_read_nested by auto. cbn [snd].
      change (new_events s (set_reads (_reads s + 1) s))
        with (new_events s s).
      rewrite new_events_same. reflexivity.
    + rewrite acquire_read_nested by auto. cbn [snd].
      change (new_events s (set_reads (_reads s + 1) s))
        with (new_events s s).
      rewrite new_events_same. reflexivity.
Qed.

Lemma stamp_on_exclusive_acquisition_witness :
  (_writes fresh = 0 /\
   fst (Lock.acquire_write uncontended 5 fresh) = Return tt /\
   existsb is_grant
     (new_events fresh (snd (Lock.acquire_write uncontended 5 fresh))) = true)
  /\
  file_content (snd (Lock.acquire_write uncontended 5 fresh)) =
    "pid = 4242, host = node1.example.org"%string.
Proof.
  split; [repeat split |].
  apply (proj1 (stamp_on_exclusive_acquisition uncontended 5 fresh));
    reflexivity.
Defined.

(** ** Nested acquisitions and their releases *)

Section RoundTrip.

Variable env : environment.

Lemma sequence_app (a b : list call) (s : state) :
  sequence env (a ++ b) s =
  (sequence env a ;; sequence env b)%py s.
Proof.
  revert s. induction a as [| c a IH]; intros s; cbn [app sequence].
  - reflexivity.
  - unfold bind.
    destruct (perform env c s) as [[[] | e |] s1]; try reflexivity.
    rewrite IH. reflexivity.
Qed.

Lemma nested_reads (timeouts : list Q) (s : state) :
  _reads s > 0 ->
  sequence env (map AcquireRead timeouts) s =
  (Return tt, set_reads (_reads s + Z.of_nat (length timeouts)) s).
Proof.
  revert s. induction timeouts as [| t ts IH]; intros s Hpos.
  - destruct s. cbn. unfold ret, set_reads. cbn. f_equal. f_equal. lia.
  - cbn [map sequence perform]. unfold bind.
    rewrite acquire_read_nested by (left; lia).
    rewrite IH by (cbn; lia).
    destruct s. unfold set_reads. cbn [_reads _writes os_lock file_content
      requests trace length]. f_equal. f_equal. lia.
Qed.

Lemma nested_writes (timeouts : list Q) (s : state) :
  _writes s > 0 ->
  sequence env (map AcquireWrite timeouts) s =
  (Return tt, set_writes (_writes s + Z.of_nat (length timeouts)) s).
Proof.
  revert s. induction timeouts as [| t ts IH]; intros s Hpos.
  - destruct s. cbn. unfold ret, set_writes. cbn. f_equal. f_equal. lia.
  - cbn [map sequence perform]. unfold bind.
    rewrite acquire_write_nested by lia.
    rewrite IH by (cbn; lia).
    destruct s. unfold set_writes. cbn [_reads _writes os_lock file_content
      requests trace length]. f_equal. f_equal. lia.
Qed.

Lemma all_reads_released (n : nat) (s : state) :
  _reads s = Z.of_nat (S n) -> _writes s = 0 ->
  sequence env (repeat ReleaseRead (S n)) s =
  (Return tt, set_reads 0 (unlocked s)).
Proof.
  revert s. induction n as [| n IH]; intros s Hr Hw.
  - cbn [repeat sequence perform]. unfold bind.
    rewrite release_read_last by assumption. reflexivity.
  - change (repeat ReleaseRead (S (S n)))
      with (ReleaseRead :: repeat ReleaseRead (S n)).
    cbn [sequence perform]. unfold bind.
    rewrite release_read_inner by lia.
    rewrite IH by (cbn [set_reads _reads _writes]; lia).
    destruct s. reflexivity.
Qed.

Lemma all_writes_released (n : nat) (s : state) :
  _writes s = Z.of_nat (S n) -> _reads s = 0 ->
  sequence env (repeat ReleaseWrite (S n)) s =
  (Return tt, set_writes 0 (unlocked s)).
Proof.
  revert s. induction n as [| n IH]; intros s Hw Hr.
  - cbn [repeat sequence perform]. unfold bind.
    rewrite release_write_last by assumption. reflexivity.
  - change (repeat ReleaseWrite (S (S n)))
      with (ReleaseWrite :: repeat ReleaseWrite (S n)).
    cbn [sequence perform]. unfold bind.
    rewrite release_write_inner by lia.
    rewrite IH by (cbn [set_writes _reads _writes]; lia).
    destruct s. reflexivity.
Qed.

(** With every request granted, and the stamp written when there is one
    to write, [_lock] returns and keeps the counters. *)
Lemma _lock_uncontended (op : Z) (timeout : Q) (s : state) :
  lock_op op ->
  (forall k, flock_answer env k = Granted) ->
  (op = fcntl.LOCK_EX -> writable env) ->
  exists s',
    Lock._lock env op timeout s = (Return tt, s') /\
    _reads s' = _reads s /\ _writes s' = _writes s.
Proof.
  intros Hop Hfree Hwritable.
  destruct (_lock_result env op timeout s Hop)
    as [evs n s' Hext _ _ _ _ _ _ _
       | evs n s' Hext _ _ _ _ _
       | evs n e s' Hext _ Hrf _ _ _ _ _
       | evs n err s' Hex Hext _ _ Hwa _ _ _].
  - destruct Hext as (Hr & Hw & _). exists s'. auto.
  - destruct Hext as (Hr & Hw & _). exists s'. auto.
  - rewrite Hfree in Hrf. discriminate.
  - rewrite (Hwritable Hex) in Hwa. discriminate.
Qed.

End RoundTrip.

(** C5. From the unlocked state and with every lock request granted, n >= 1
    calls of [acquire_read] followed by n calls of [release_read] all
    return, and leave both counters at zero and the descriptor without a
    lock; so do n calls of [acquire_write] followed by n of
    [release_write], the lock file being writable. *)
Theorem nested_round_trip
  (env : environment) (n : nat) (timeouts : list Q) (s : state) :
  (1 <= n)%nat -> length timeouts = n ->
  (forall k, flock_answer env k = Granted) ->
  _reads s = 0 -> _writes s = 0 -> os_lock s = Unheld ->
  (exists s',
     sequence env (map AcquireRead timeouts ++ repeat ReleaseRead n) s =
       (Return tt, s') /\
     _reads s' = 0 /\ _writes s' = 0 /\ os_lock s' = Unheld) /\
  (writable env ->
   exists s',
     sequence env (map AcquireWrite timeouts ++ repeat ReleaseWrite n) s =
       (Return tt, s') /\
     _reads s' = 0 /\ _writes s' = 0 /\ os_lock s' = Unheld).
Proof.
  intros Hn Hlen Hfree Hr Hw Hos.
  destruct timeouts as [| t ts]; cbn [length] in Hlen; [lia |].
  subst n. split; [| intros Hwritable].
  - destruct (_lock_uncontended env fcntl.LOCK_SH t s (or_introl eq_refl)
                Hfree) as (s1 & Hrun & Hr1 & Hw1); [discriminate |].
    eexists. split.
    + cbn [map app sequence perform]. unfold bind at 1.
      rewrite (acquire_read_first env t s Hr Hw), Hrun. cbn [after_lock].
      rewrite sequence_app. unfold bind at 1.
      rewrite nested_reads by (cbn; lia).
      apply all_reads_released; cbn; lia.
    + cbn. repeat split. congruence.
  - destruct (_lock_uncontended env fcntl.LOCK_EX t s (or_intror eq_refl)
                Hfree (fun _ => Hwritable)) as (s1 & Hrun & Hr1 & Hw1).
    eexists. split.
    + cbn [map app sequence perform]. unfold bind at 1.
      rewrite (acquire_write_first env t s Hw Hr), Hrun. cbn [after_lock].
      rewrite sequence_app. unfold bind at 1.
      rewrite nested_writes by (cbn; lia).
      apply all_writes_released; cbn; lia.
    + cbn. repeat split. congruence.
Qed.

Lemma nested_round_trip_witness :
  ((1 <= 3)%nat /\ length [5%Q; 5%Q; 5%Q] = 3%nat /\
   _reads fresh = 0 /\ _writes fresh = 0 /\ os_lock fresh = Unheld /\
   writable uncontended) /\
  (exists s',
     sequence uncontended
       (map AcquireRead [5%Q; 5%Q; 5%Q] ++ repeat ReleaseRead 3) fresh =
       (Return tt, s') /\
     _reads s' = 0 /\ _writes s' = 0 /\ os_lock s' = Unheld) /\
  (exists s',
     sequence uncontended
       (map AcquireWrite [5%Q; 5%Q; 5%Q] ++ repeat ReleaseWrite 3) fresh =
       (Return tt, s') /\
     _reads s' = 0 /\ _writes s' = 0 /\ os_lock s' = Unheld).
Proof.
  split; [repeat split; lia |].
  destruct (nested_round_trip uncontended 3 [5%Q; 5%Q; 5%Q] fresh)
    as [Hread Hwrite]; try reflexivity; [lia |].
  split; [exact Hread | apply Hwrite; intros k; reflexivity].
Defined.

(** ** Counters and the lock of the descriptor *)

(** The ways in which [_lock] ends, read off the state it leaves. *)
Lemma _lock_cases (env : environment) (op : Z) (timeout : Q) (s : state) :
  lock_op op ->
  exists s',
    _reads s' = _reads s /\ _writes s' = _writes s /\
    ((Lock._lock env op timeout s = (Return tt, s') /\
      os_lock s' = mode_of op /\ exhausted env op timeout s = false) \/
     (Lock._lock env op timeout s = (Return tt, s') /\
      os_lock s' = os_lock s /\ exhausted env op timeout s = true) \/
     (Lock._lock env op timeout s = (Raise (NameError "EACCES"), s') /\
      os_lock s' = os_lock s /\ unstamped env op timeout s = false) \/
     (Lock._lock env op timeout s = (Raise (NameError "EACCES"), s') /\
      os_lock s' = Exclusive /\ op = fcntl.LOCK_EX /\
      unstamped env op timeout s = true /\ ~ writable env)).
Proof.
  intros Hop. unfold exhausted, unstamped.
  pose proof (_lock_result env op timeout s Hop) as Hres.
  destruct (Lock._lock env op timeout s) as [r s0].
  remember (r, s0) as rs eqn:Hrs.
  destruct Hres as [evs n s' (Hr & Hw & Htr & _) _ _ _ Hg _ Hos _
                   | evs n s' (Hr & Hw & Htr & _) _ Hg _ Hos _
                   | evs n e s' (Hr & Hw & Htr & _) _ _ _ Hg _ Hos _
                   | evs n err s' Hex (Hr & Hw & Htr & _) _ _ Hwa Hg Hos _];
    injection Hrs as Hr0 Hs0; subst r s0; exists s'; repeat apply conj; auto;
    rewrite (new_events_app evs s s' Htr), Hg.
  - left. auto.
  - right. left. auto.
  - right. right. left. auto.
  - right. right. right. repeat apply conj; auto.
    intros Hwritable. rewrite Hwritable in Hwa. discriminate.
Qed.

Lemma began_ended (m : hold) (c : call) (s s' : state) :
  _reads s' = 0 -> _writes s' = 0 -> began m c s s' = Unheld.
Proof. intros Hr Hw. unfold began. rewrite Hr, Hw. reflexivity. Qed.

Lemma began_first (m : hold) (c : call) (s s' : state) :
  _reads s' <> 0 \/ _writes s' <> 0 ->
  _reads s = 0 -> _writes s = 0 ->
  began m c s s' =
  match c with
  | AcquireRead _ => Shared
  | AcquireWrite _ => Exclusive
  | ReleaseRead | ReleaseWrite => m
  end.
Proof.
  intros H Hr Hw. unfold began. rewrite Hr, Hw.
  destruct (Z.eqb_spec (_reads s') 0); destruct (Z.eqb_spec (_writes s') 0);
    try reflexivity.
  destruct H; contradiction.
Qed.

Lemma began_kept (m : hold) (c : call) (s s' : state) :
  _reads s' <> 0 \/ _writes s' <> 0 ->
  _reads s <> 0 \/ _writes s <> 0 ->
  began m c s s' = m.
Proof.
  intros H H0. unfold began.
  destruct (Z.eqb_spec (_reads s') 0); destruct (Z.eqb_spec (_writes s') 0);
    cbn [andb]; try (destruct H; contradiction);
    destruct (Z.eqb_spec (_reads s) 0); destruct (Z.eqb_spec (_writes s) 0);
    cbn [andb]; try reflexivity; destruct H0; contradiction.
Qed.

Ltac mode_began :=
  first [ rewrite began_ended by (fields; lia)
        | rewrite began_first by (fields; lia)
        | rewrite began_kept by (fields; lia) ].

Ltac kept :=
  fields;
  first [ exfalso; lia
        | mode_began; unfold sound; fields; split; [congruence | shape] ].

Lemma sound_init (content : string) : sound Unheld (Lock.__init__ content).
Proof. split; [reflexivity |]. left. cbn. auto. Qed.

Lemma sound_step (env : environment) (m : hold) (c : call) (s : state) :
  sound m s ->
  timed_out env c s = false ->
  stamp_failed env c s = false ->
  sound (began m c s (snd (perform env c s))) (snd (perform env c s)).
Proof.
  intros (Hm & Hs) Hto Hst.
  destruct c as [timeout | timeout | |];
    cbn [perform timed_out stamp_failed] in *.
  - destruct (Z.eqb_spec (_reads s) 0) as [Hr | Hr];
      [destruct (Z.eqb_spec (_writes s) 0) as [Hw | Hw] |].
    + rewrite (acquire_read_first env timeout s Hr Hw).
      destruct (_lock_cases env fcntl.LOCK_SH timeout s (or_introl eq_refl))
        as (s' & Hr' & Hw' &
            [(Hrun & Hos & _) | [(_ & _ & Hex)
            | [(Hrun & Hos & _) | (_ & _ & Hsh & _)]]]).
      * rewrite Hrun. change (mode_of fcntl.LOCK_SH) with Shared in Hos.
        kept.
      * rewrite Hex in Hto. discriminate.
      * rewrite Hrun.
        destruct Hs as [(H1 & H2 & H3) | [(H1 & H2 & H3) | (H1 & H2 & H3 & H4)]];
          kept.
      * discriminate.
    + rewrite acquire_read_nested by auto.
      destruct Hs as [(H1 & H2 & H3) | [(H1 & H2 & H3) | (H1 & H2 & H3 & H4)]];
        kept.
    + rewrite acquire_read_nested by auto.
      destruct Hs as [(H1 & H2 & H3) | [(H1 & H2 & H3) | (H1 & H2 & H3 & H4)]];
        kept.
  - destruct (Z.eqb_spec (_writes s) 0) as [Hw | Hw];
      [destruct (Z.eqb_spec (_reads s) 0) as [Hr | Hr] |].
    + rewrite (acquire_write_first env timeout s Hw Hr).
      destruct (_lock_cases env fcntl.LOCK_EX timeout s (or_intror eq_refl))
        as (s' & Hr' & Hw' &
            [(Hrun & Hos & _) | [(_ & _ & Hex)
            | [(Hrun & Hos & _) | (_ & _ & _ & Hun & _)]]]).
      * rewrite Hrun. change (mode_of fcntl.LOCK_EX) with Exclusive in Hos.
        kept.
      * rewrite Hex in Hto. discriminate.
      * rewrite Hrun.
        destruct Hs as [(H1 & H2 & H3) | [(H1 & H2 & H3) | (H1 & H2 & H3 & H4)]];
          kept.
      * rewrite Hun in Hst. discriminate.
    + rewrite acquire_write_upgrade by auto.
      destruct Hs as [(H1 & H2 & H3) | [(H1 & H2 & H3) | (H1 & H2 & H3 & H4)]];
        kept.
    + rewrite acquire_write_nested by auto.
      destruct Hs as [(H1 & H2 & H3) | [(H1 & H2 & H3) | (H1 & H2 & H3 & H4)]];
        kept.
  - destruct (Z.eq_dec (_reads s) 0) as [Hr | Hr].
    + rewrite release_read_unheld by lia.
      destruct Hs as [(H1 & H2 & H3) | [(H1 & H2 & H3) | (H1 & H2 & H3 & H4)]];
        kept.
    + destruct (Z.eq_dec (_reads s) 1) as [Hone | Hone];
        [destruct (Z.eq_dec (_writes s) 0) as [Hw | Hw] |].
      * rewrite release_read_last by assumption. kept.
      * destruct Hs as [(H1 & H2 & H3) | [(H1 & H2 & H3) | (H1 & H2 & H3 & H4)]];
          try (exfalso; lia).
        rewrite release_read_inner by (auto; lia). kept.
      * destruct Hs as [(H1 & H2 & H3) | [(H1 & H2 & H3) | (H1 & H2 & H3 & H4)]];
          try (exfalso; lia);
          rewrite release_read_inner by (auto; lia); kept.
  - destruct (Z.eq_dec (_writes s) 0) as [Hw | Hw].
    + rewrite release_write_unheld by lia.
      destruct Hs as [(H1 & H2 & H3) | [(H1 & H2 & H3) | (H1 & H2 & H3 & H4)]];
        kept.
    + destruct (Z.eq_dec (_writes s) 1) as [Hone | Hone];
        [destruct (Z.eq_dec (_reads s) 0) as [Hr | Hr] |].
      * rewrite release_write_last by assumption. kept.
      * destruct Hs as [(H1 & H2 & H3) | [(H1 & H2 & H3) | (H1 & H2 & H3 & H4)]];
          try (exfalso; lia).
        rewrite release_write_inner by (auto; lia). kept.
      * destruct Hs as [(H1 & H2 & H3) | [(H1 & H2 & H3) | (H1 & H2 & H3 & H4)]];
          try (exfalso; lia);
          rewrite release_write_inner by (auto; lia); kept.
Qed.

Lemma held_since_sound (env : environment) (m : hold) (s : state) :
  held_since env m s -> sound m s.
Proof.
  induction 1 as [content | m s c _ IH Hto Hst].
  - apply sound_init.
  - apply sound_step; assumption.
Qed.

(** C2, as the code has it.  Take any state that calls reach from a new
    instance without a call timing out or failing to write its stamp, and
    the mode [m] in which its current hold began (shared by [acquire_read],
    exclusive by [acquire_write], from both counters at zero).  The
    descriptor holds the shared lock iff [_reads > 0], [_writes = 0] and the
    hold began shared; it holds the exclusive lock iff [_writes > 0], or
    [_reads > 0] and the hold began exclusive; it holds no lock iff both
    counters are zero. *)
Theorem counters_agree_with_lock (env : environment) (m : hold) (s : state) :
  held_since env m s ->
  (os_lock s = Shared <-> _reads s > 0 /\ _writes s = 0 /\ m = Shared) /\
  (os_lock s = Exclusive <->
   _writes s > 0 \/ (_reads s > 0 /\ m = Exclusive)) /\
  (os_lock s = Unheld <-> _reads s = 0 /\ _writes s = 0).
Proof.
  intros H. destruct (held_since_sound env m s H) as (Hm & Hs).
  rewrite Hm.
  destruct Hs as [(-> & Hr & Hw) | [(-> & Hr & Hw) | (-> & Hr & Hw & Hrw)]].
  - refine (conj _ (conj _ _)); split; intros Hyp; try discriminate Hyp.
    + destruct Hyp as (_ & _ & Habs). discriminate Habs.
    + destruct Hyp as [Hyp | (_ & Habs)]; [lia | discriminate Habs].
    + auto.
    + reflexivity.
  - refine (conj _ (conj _ _)); split; intros Hyp; try discriminate Hyp.
    + auto.
    + reflexivity.
    + destruct Hyp as [Hyp | (_ & Habs)]; [lia | discriminate Habs].
    + lia.
  - refine (conj _ (conj _ _)); split; intros Hyp; try discriminate Hyp.
    + destruct Hyp as (_ & _ & Habs). discriminate Habs.
    + destruct (Z_le_gt_dec (_writes s) 0);
        [right; split; [lia | reflexivity] | left; lia].
    + reflexivity.
    + lia.
Qed.

Lemma counters_agree_with_lock_witness :
  let reader := snd (perform uncontended (AcquireRead 1) fresh) in
  let kept_writer :=
    snd (perform uncontended ReleaseWrite
           (snd (perform uncontended (AcquireRead 1)
                   (snd (perform uncontended (AcquireWrite 1) fresh))))) in
  (held_since uncontended Shared reader /\
   held_since uncontended Exclusive kept_writer) /\
  (os_lock reader = Shared <->
   _reads reader > 0 /\ _writes reader = 0 /\ Shared = Shared) /\
  (os_lock kept_writer = Exclusive <->
   _writes kept_writer > 0 \/
   (_reads kept_writer > 0 /\ Exclusive = Exclusive)).
Proof.
  pose (Hw1 := since_call uncontended Unheld fresh (AcquireWrite 1)
                 (since_init uncontended EmptyString) eq_refl eq_refl).
  pose (Hw2 := since_call uncontended _ _ (AcquireRead 1) Hw1
                 eq_refl eq_refl).
  pose (Hw3 := since_call uncontended _ _ ReleaseWrite Hw2 eq_refl eq_refl).
  pose (Hr1 := since_call uncontended Unheld fresh (AcquireRead 1)
                 (since_init uncontended EmptyString) eq_refl eq_refl).
  split; [split; [exact Hr1 | exact Hw3] |].
  split.
  - apply (proj1 (counters_agree_with_lock uncontended Shared _ Hr1)).
  - apply (proj1 (proj2 (counters_agree_with_lock uncontended Exclusive _
                           Hw3))).
Defined.

(** C2 as stated fails.  After [acquire_write], [acquire_read] and
    [release_write], all granted at once, the instance has [_reads = 1] and
    [_writes = 0] while the descriptor still holds the exclusive lock: the
    write lock is kept until the last release. *)
Lemma counters_agree_with_lock_counterexample :
  ~ (forall (env : environment) (calls : list call) (content : string),
       let s := run env calls (Lock.__init__ content) in
       (os_lock s = Shared <-> _reads s > 0 /\ _writes s = 0) /\
       (os_lock s = Exclusive <-> _writes s > 0) /\
       (os_lock s = Unheld <-> _reads s = 0 /\ _writes s = 0)).
Proof.
  intros H.
  destruct (H uncontended [AcquireWrite 1; AcquireRead 1; ReleaseWrite]
              EmptyString) as (_ & [Hex _] & _).
  assert (Hgt : 0 > 0) by (apply Hex; reflexivity).
  discriminate.
Qed.

(** * Further properties of the lock *)

(** ** What every run keeps *)

Ltac atoms4 := repeat apply conj; first [lia | congruence | assumption].

Ltac shape4 :=
  fields;
  first [ exfalso; lia
        | left; atoms4
        | right; left; atoms4
        | right; right; left; atoms4
        | right; right; right; atoms4 ].

Lemma safe_init (env : environment) (content : string) :
  safe env (Lock.__init__ content).
Proof. left. cbn. repeat apply conj; [reflexivity | lia | lia]. Qed.

Lemma safe_step (env : environment) (c : call) (s : state) :
  safe env s -> safe env (snd (perform env c s)).
Proof.
  unfold safe. intros Hs.
  destruct c as [timeout | timeout | |]; cbn [perform].
  - destruct (Z.eq_dec (_reads s) 0) as [Hr | Hr];
      [destruct (Z.eq_dec (_writes s) 0) as [Hw | Hw] |].
    + rewrite (acquire_read_first env timeout s Hr Hw).
      destruct (_lock_cases env fcntl.LOCK_SH timeout s (or_introl eq_refl))
        as (s' & Hr' & Hw' &
            [(Hrun & Hos & _) | [(Hrun & Hos & _)
            | [(Hrun & Hos & _) | (Hrun & Hos & Hsh & _ & Hnw)]]]);
        rewrite Hrun;
        try change (mode_of fcntl.LOCK_SH) with Shared in Hos;
        destruct Hs as [(H1 & H2 & H3) | [(H1 & H2 & H3)
        | [(H1 & H2 & H3 & H4) | (H1 & H2 & H3 & H4)]]]; shape4.
    + rewrite acquire_read_nested by auto. destruct Hs as [(H1 & H2 & H3) | [(H1 & H2 & H3)
        | [(H1 & H2 & H3 & H4) | (H1 & H2 & H3 & H4)]]]; shape4.
    + rewrite acquire_read_nested by auto. destruct Hs as [(H1 & H2 & H3) | [(H1 & H2 & H3)
        | [(H1 & H2 & H3 & H4) | (H1 & H2 & H3 & H4)]]]; shape4.
  - destruct (Z.eq_dec (_writes s) 0) as [Hw | Hw];
      [destruct (Z.eq_dec (_reads s) 0) as [Hr | Hr] |].
    + rewrite (acquire_write_first env timeout s Hw Hr).
      destruct (_lock_cases env fcntl.LOCK_EX timeout s (or_intror eq_refl))
        as (s' & Hr' & Hw' &
            [(Hrun & Hos & _) | [(Hrun & Hos & _)
            | [(Hrun & Hos & _) | (Hrun & Hos & Hex & _ & Hnw)]]]);
        rewrite Hrun;
        try change (mode_of fcntl.LOCK_EX) with Exclusive in Hos;
        destruct Hs as [(H1 & H2 & H3) | [(H1 & H2 & H3)
        | [(H1 & H2 & H3 & H4) | (H1 & H2 & H3 & H4)]]]; shape4.
    + rewrite acquire_write_upgrade by auto. destruct Hs as [(H1 & H2 & H3) | [(H1 & H2 & H3)
        | [(H1 & H2 & H3 & H4) | (H1 & H2 & H3 & H4)]]]; shape4.
    + rewrite acquire_write_nested by auto. destruct Hs as [(H1 & H2 & H3) | [(H1 & H2 & H3)
        | [(H1 & H2 & H3 & H4) | (H1 & H2 & H3 & H4)]]]; shape4.
  - destruct (Z_le_gt_dec (_reads s) 0) as [Hr | Hr].
    + rewrite release_read_unheld by lia. destruct Hs as [(H1 & H2 & H3) | [(H1 & H2 & H3)
        | [(H1 & H2 & H3 & H4) | (H1 & H2 & H3 & H4)]]]; shape4.
    + destruct (Z.eq_dec (_reads s) 1) as [Hone | Hone];
        [destruct (Z.eq_dec (_writes s) 0) as [Hw | Hw] |].
      * rewrite release_read_last by assumption. shape4.
      * rewrite release_read_inner by (auto; lia). destruct Hs as [(H1 & H2 & H3) | [(H1 & H2 & H3)
        | [(H1 & H2 & H3 & H4) | (H1 & H2 & H3 & H4)]]]; shape4.
      * rewrite release_read_inner by (auto; lia). destruct Hs as [(H1 & H2 & H3) | [(H1 & H2 & H3)
        | [(H1 & H2 & H3 & H4) | (H1 & H2 & H3 & H4)]]]; shape4.
  - destruct (Z_le_gt_dec (_writes s) 0) as [Hw | Hw].
    + rewrite release_write_unheld by lia. destruct Hs as [(H1 & H2 & H3) | [(H1 & H2 & H3)
        | [(H1 & H2 & H3 & H4) | (H1 & H2 & H3 & H4)]]]; shape4.
    + destruct (Z.eq_dec (_writes s) 1) as [Hone | Hone];
        [destruct (Z.eq_dec (_reads s) 0) as [Hr | Hr] |].
      * rewrite release_write_last by assumption. shape4.
      * rewrite release_write_inner by (auto; lia). destruct Hs as [(H1 & H2 & H3) | [(H1 & H2 & H3)
        | [(H1 & H2 & H3 & H4) | (H1 & H2 & H3 & H4)]]]; shape4.
      * rewrite release_write_inner by (auto; lia). destruct Hs as [(H1 & H2 & H3) | [(H1 & H2 & H3)
        | [(H1 & H2 & H3 & H4) | (H1 & H2 & H3 & H4)]]]; shape4.
Qed.

Lemma safe_run (env : environment) (calls : list call) (s : state) :
  safe env s -> safe env (run env calls s).
Proof.
  revert s. induction calls as [| c rest IH]; intros s Hs; cbn [run].
  - exact Hs.
  - apply IH, safe_step, Hs.
Qed.

(** X1. Whatever the calls and whatever the environment answers (timeouts
    and errors included), neither counter is ever negative. *)
Theorem counters_never_negative
  (env : environment) (calls : list call) (content : string) :
  0 <= _reads (run env calls (Lock.__init__ content)) /\
  0 <= _writes (run env calls (Lock.__init__ content)).
Proof.
  destruct (safe_run env calls _ (safe_init env content))
    as [(H1 & H2 & H3) | [(H1 & H2 & H3)
       | [(H1 & H2 & H3 & H4) | (H1 & H2 & H3 & H4)]]];
    split; lia.
Qed.

(** X2. No lock is left behind, as long as the stamp can be written.
    Whatever the calls and the answers to the lock requests: the descriptor
    holds the shared lock only while [_reads > 0] and [_writes = 0]; and in
    an environment where every write of the stamp succeeds, it holds no
    lock when both counters are zero. *)
Theorem no_lock_left_behind
  (env : environment) (calls : list call) (content : string) :
  (writable env ->
   _reads (run env calls (Lock.__init__ content)) = 0 ->
   _writes (run env calls (Lock.__init__ content)) = 0 ->
   os_lock (run env calls (Lock.__init__ content)) = Unheld) /\
  (os_lock (run env calls (Lock.__init__ content)) = Shared ->
   _reads (run env calls (Lock.__init__ content)) > 0 /\
   _writes (run env calls (Lock.__init__ content)) = 0).
Proof.
  destruct (safe_run env calls _ (safe_init env content))
    as [(H1 & H2 & H3) | [(H1 & H2 & H3)
       | [(H1 & H2 & H3 & H4) | (H1 & H2 & H3 & H4)]]];
    split; intros; try split; try lia; try congruence.
  contradiction.
Qed.

Lemma no_lock_left_behind_witness :
  let s := run contended [AcquireRead (2 # 10); ReleaseRead] fresh in
  let s' := run uncontended [AcquireRead 1] fresh in
  (writable contended /\ (_reads s = 0 /\ _writes s = 0) /\
   os_lock s = Unheld) /\
  (os_lock s' = Shared /\ _reads s' > 0 /\ _writes s' = 0).
Proof.
  split.
  - split; [intros k; reflexivity |].
    split; [split; reflexivity |].
    apply (proj1 (no_lock_left_behind contended
                    [AcquireRead (2 # 10); ReleaseRead] EmptyString));
      [intros k; reflexivity | reflexivity | reflexivity].
  - split; [reflexivity |].
    apply (proj2 (no_lock_left_behind uncontended
                    [AcquireRead 1] EmptyString)).
    reflexivity.
Defined.

(** ** What one call does *)

(** [_lock] returns, or raises; the counters are as they were in both
    cases, and so are lock and file when it raises without having been
    granted the lock. *)
Lemma _lock_outcome (env : environment) (op : Z) (timeout : Q) (s : state) :
  lock_op op ->
  exists s',
    _reads s' = _reads s /\ _writes s' = _writes s /\
    (Lock._lock env op timeout s = (Return tt, s') \/
     (Lock._lock env op timeout s = (Raise (NameError "EACCES"), s') /\
      (existsb is_grant (new_events s s') = false ->
       os_lock s' = os_lock s /\ file_content s' = file_content s))).
Proof.
  intros Hop.
  pose proof (_lock_result env op timeout s Hop) as Hres.
  destruct (Lock._lock env op timeout s) as [r s0].
  remember (r, s0) as rs eqn:Hrs.
  destruct Hres as [evs n s' (Hr & Hw & _) _ _ _ _ _ _ _
                   | evs n s' (Hr & Hw & _) _ _ _ _ _
                   | evs n e s' (Hr & Hw & _) _ _ _ _ _ Hos Hfile
                   | evs n err s' _ (Hr & Hw & Htr & _) _ _ _ Hg _ _];
    injection Hrs as Hr0 Hs0; subst r s0; exists s'; auto 10.
  repeat apply conj; auto. right. split; [reflexivity |].
  rewrite (new_events_app evs s s' Htr), Hg. discriminate.
Qed.

(** X3. A call that returns has moved its own counter by exactly one and
    left the other alone.  A call that raises has left both counters as
    they were; it has also left the lock of the descriptor and the file as
    they were, unless one of its lock requests had been granted (the stamp
    could not be written). *)
Theorem call_effect (env : environment) (c : call) (s : state) :
  (fst (perform env c s) = Return tt ->
   (_reads (snd (perform env c s)), _writes (snd (perform env c s))) =
   counters_after c s) /\
  (forall e, fst (perform env c s) = Raise e ->
   _reads (snd (perform env c s)) = _reads s /\
   _writes (snd (perform env c s)) = _writes s /\
   (existsb is_grant (new_events s (snd (perform env c s))) = false ->
    os_lock (snd (perform env c s)) = os_lock s /\
    file_content (snd (perform env c s)) = file_content s)).
Proof.
  destruct c as [timeout | timeout | |]; cbn [perform counters_after].
  - destruct (Z.eq_dec (_reads s) 0) as [Hr | Hr];
      [destruct (Z.eq_dec (_writes s) 0) as [Hw | Hw] |].
    + rewrite (acquire_read_first env timeout s Hr Hw).
      destruct (_lock_outcome env fcntl.LOCK_SH timeout s (or_introl eq_refl))
        as (s' & Hr' & Hw' & [Hrun | (Hrun & Hkeep)]);
        rewrite Hrun; fields; split; try discriminate; auto.
      intros _. congruence.
    + rewrite acquire_read_nested by auto. split; [reflexivity | discriminate].
    + rewrite acquire_read_nested by auto. split; [reflexivity | discriminate].
  - destruct (Z.eq_dec (_writes s) 0) as [Hw | Hw];
      [destruct (Z.eq_dec (_reads s) 0) as [Hr | Hr] |].
    + rewrite (acquire_write_first env timeout s Hw Hr).
      destruct (_lock_outcome env fcntl.LOCK_EX timeout s (or_intror eq_refl))
        as (s' & Hr' & Hw' & [Hrun | (Hrun & Hkeep)]);
        rewrite Hrun; fields; split; try discriminate; auto.
      intros _. congruence.
    + rewrite acquire_write_upgrade by auto. cbn.
      split; [discriminate | auto].
    + rewrite acquire_write_nested by auto.
      split; [reflexivity | discriminate].
  - destruct (Z_le_gt_dec (_reads s) 0) as [Hr | Hr].
    + rewrite release_read_unheld by lia. cbn.
      split; [discriminate | auto].
    + destruct (Z.eq_dec (_reads s) 1) as [Hone | Hone];
        [destruct (Z.eq_dec (_writes s) 0) as [Hw | Hw] |].
      * rewrite release_read_last by assumption. fields.
        split; [intros _; f_equal; lia | discriminate].
      * rewrite release_read_inner by (auto; lia).
        split; [reflexivity | discriminate].
      * rewrite release_read_inner by (auto; lia).
        split; [reflexivity | discriminate].
  - destruct (Z_le_gt_dec (_writes s) 0) as [Hw | Hw].
    + rewrite release_write_unheld by lia. cbn.
      split; [discriminate | auto].
    + destruct (Z.eq_dec (_writes s) 1) as [Hone | Hone];
        [destruct (Z.eq_dec (_reads s) 0) as [Hr | Hr] |].
      * rewrite release_write_last by assumption. fields.
        split; [intros _; f_equal; lia | discriminate].
      * rewrite release_write_inner by (auto; lia).
        split; [reflexivity | discriminate].
      * rewrite release_write_inner by (auto; lia).
        split; [reflexivity | discriminate].
Qed.

Lemma call_effect_witness :
  let returned := perform uncontended (AcquireWrite 1) fresh in
  let raised := perform denied (AcquireRead 1) fresh in
  (fst returned = Return tt /\
   fst raised = Raise (NameError "EACCES") /\
   existsb is_grant (new_events fresh (snd raised)) = false) /\
  (_reads (snd returned), _writes (snd returned)) = (0, 1) /\
  (_reads (snd raised) = 0 /\ _writes (snd raised) = 0) /\
  (os_lock (snd raised) = Unheld /\ file_content (snd raised) = EmptyString).
Proof.
  split; [repeat apply conj; reflexivity |].
  pose proof (proj2 (call_effect denied (AcquireRead 1) fresh)
                (NameError "EACCES") eq_refl) as (Hr & Hw & Hkeep).
  split; [| split].
  - apply (proj1 (call_effect uncontended (AcquireWrite 1) fresh)).
    reflexivity.
  - split; [exact Hr | exact Hw].
  - apply Hkeep. reflexivity.
Defined.

(** X4. The exceptions of the four methods.  [acquire_read] raises nothing
    but the [NameError] of the handler in [_lock]; [acquire_write] raises
    that or [LockError], the latter exactly when [_writes = 0] and
    [_reads <> 0]; a release raises nothing but [AssertionError], and only
    with its counter at zero or below. *)
Theorem exceptions_of_the_methods
  (env : environment) (timeout : Q) (s : state) (e : exn) :
  (fst (Lock.acquire_read env timeout s) = Raise e ->
   e = NameError "EACCES" /\ _reads s = 0 /\ _writes s = 0) /\
  (fst (Lock.acquire_write env timeout s) = Raise e ->
   (e = LockError upgrade_message /\ _writes s = 0 /\ _reads s <> 0) \/
   (e = NameError "EACCES" /\ _reads s = 0 /\ _writes s = 0)) /\
  (fst (Lock.release_read env s) = Raise e ->
   e = AssertionError /\ _reads s <= 0) /\
  (fst (Lock.release_write env s) = Raise e ->
   e = AssertionError /\ _writes s <= 0).
Proof.
  repeat apply conj; intros H.
  - destruct (Z.eq_dec (_reads s) 0) as [Hr | Hr];
      [destruct (Z.eq_dec (_writes s) 0) as [Hw | Hw] |].
    + rewrite (acquire_read_first env timeout s Hr Hw) in H.
      destruct (_lock_outcome env fcntl.LOCK_SH timeout s (or_introl eq_refl))
        as (s' & _ & _ & [Hrun | (Hrun & _)]);
        rewrite Hrun in H; cbn in H; [discriminate |].
      split; [congruence | auto].
    + rewrite acquire_read_nested in H by auto. discriminate.
    + rewrite acquire_read_nested in H by auto. discriminate.
  - destruct (Z.eq_dec (_writes s) 0) as [Hw | Hw];
      [destruct (Z.eq_dec (_reads s) 0) as [Hr | Hr] |].
    + rewrite (acquire_write_first env timeout s Hw Hr) in H.
      destruct (_lock_outcome env fcntl.LOCK_EX timeout s (or_intror eq_refl))
        as (s' & _ & _ & [Hrun | (Hrun & _)]);
        rewrite Hrun in H; cbn in H; [discriminate |].
      right. split; [congruence | auto].
    + rewrite acquire_write_upgrade in H by auto. cbn in H.
      left. split; [unfold upgrade_message; congruence | auto].
    + rewrite acquire_write_nested in H by auto. discriminate.
  - destruct (Z_le_gt_dec (_reads s) 0) as [Hr | Hr].
    + rewrite release_read_unheld in H by lia. cbn in H.
      split; [congruence | lia].
    + destruct (Z.eq_dec (_reads s) 1) as [Hone | Hone];
        [destruct (Z.eq_dec (_writes s) 0) as [Hw | Hw] |].
      * rewrite release_read_last in H by assumption. discriminate.
      * rewrite release_read_inner in H by (auto; lia). discriminate.
      * rewrite release_read_inner in H by (auto; lia). discriminate.
  - destruct (Z_le_gt_dec (_writes s) 0) as [Hw | Hw].
    + rewrite release_write_unheld in H by lia. cbn in H.
      split; [congruence | lia].
    + destruct (Z.eq_dec (_writes s) 1) as [Hone | Hone];
        [destruct (Z.eq_dec (_reads s) 0) as [Hr | Hr] |].
      * rewrite release_write_last in H by assumption. discriminate.
      * rewrite release_write_inner in H by (auto; lia). discriminate.
      * rewrite release_write_inner in H by (auto; lia). discriminate.
Qed.

Lemma exceptions_of_the_methods_witness :
  let reading := run uncontended [AcquireRead 1] fresh in
  (fst (Lock.acquire_read denied 1 fresh) = Raise (NameError "EACCES") /\
   fst (Lock.acquire_write uncontended 1 reading)
     = Raise (LockError upgrade_message) /\
   fst (Lock.release_read uncontended fresh) = Raise AssertionError /\
   fst (Lock.release_write uncontended fresh) = Raise AssertionError) /\
  (_reads fresh = 0 /\ _writes fresh = 0) /\
  (_writes reading = 0 /\ _reads reading <> 0) /\
  _reads fresh <= 0 /\ _writes fresh <= 0.
Proof.
  split; [repeat apply conj; reflexivity |].
  repeat apply conj.
  - apply (proj1 (exceptions_of_the_methods denied 1 fresh
                    (NameError "EACCES"))).
    reflexivity.
  - apply (proj1 (exceptions_of_the_methods denied 1 fresh
                    (NameError "EACCES"))).
    reflexivity.
  - destruct (proj1 (proj2 (exceptions_of_the_methods uncontended 1
                              (run uncontended [AcquireRead 1] fresh)
                              (LockError upgrade_message))) eq_refl)
      as [(_ & Hw & _) | (Habs & _)]; [exact Hw | discriminate Habs].
  - destruct (proj1 (proj2 (exceptions_of_the_methods uncontended 1
                              (run uncontended [AcquireRead 1] fresh)
                              (LockError upgrade_message))) eq_refl)
      as [(_ & _ & Hr) | (Habs & _)]; [exact Hr | discriminate Habs].
  - apply (proj1 (proj2 (proj2 (exceptions_of_the_methods uncontended 1 fresh
                                  AssertionError)))).
    reflexivity.
  - apply (proj2 (proj2 (proj2 (exceptions_of_the_methods uncontended 1 fresh
                                  AssertionError)))).
    reflexivity.
Defined.

(** ** The system calls of a call *)




(** X6. An instance that already counts an acquisition asks the system
    for nothing when it acquires again: with [_reads <> 0] or
    [_writes <> 0], neither [acquire_read] nor [acquire_write] adds an
    event, whatever it returns. *)
Theorem held_instance_makes_no_request
  (env : environment) (timeout : Q) (s : state) :
  _reads s <> 0 \/ _writes s <> 0 ->
  new_events s (snd (Lock.acquire_read env timeout s)) = [] /\
  new_events s (snd (Lock.acquire_write env timeout s)) = [].
Proof.
  intros H. split.
  - rewrite acquire_read_nested by exact H.
    apply new_events_app. reflexivity.
  - destruct (Z.eq_dec (_writes s) 0) as [Hw | Hw].
    + rewrite acquire_write_upgrade by (destruct H; auto; contradiction).
      apply new_events_same.
    + rewrite acquire_write_nested by exact Hw.
      apply new_events_app. reflexivity.
Qed.

Lemma held_instance_makes_no_request_witness :
  let s := run uncontended [AcquireWrite 1] fresh in
  (_reads s <> 0 \/ _writes s <> 0) /\
  new_events s (snd (Lock.acquire_read contended 1 s)) = [] /\
  new_events s (snd (Lock.acquire_write contended 1 s)) = [].
Proof.
  split; [right; discriminate |].
  apply (held_instance_makes_no_request contended 1
           (run uncontended [AcquireWrite 1] fresh)).
  right. discriminate.
Defined.

(** ** Budgets *)

Lemma rounds_positive (timeout : Q) :
  (0 < timeout)%Q -> exists fuel, Lock.rounds timeout = S fuel.
Proof.
  intros Hpos. pose proof (rounds_cover timeout) as Hcover.
  destruct (Lock.rounds timeout) as [| fuel]; [| exists fuel; reflexivity].
  change (inject_Z (Z.of_nat 0)) with 0%Q in Hcover. lra.
Qed.

(** X7. With a timeout of zero or less the loop body never runs: on an
    unlocked instance [acquire_read] and [acquire_write] make no request
    at all, whatever the environment, and still return with their counter
    at 1. *)
Theorem no_budget_no_request (env : environment) (timeout : Q) (s : state) :
  (timeout <= 0)%Q -> _reads s = 0 -> _writes s = 0 ->
  Lock.acquire_read env timeout s = (Return tt, set_reads 1 s) /\
  Lock.acquire_write env timeout s = (Return tt, set_writes 1 s).
Proof.
  intros Hle Hr Hw.
  assert (Hlock : forall op, Lock._lock env op timeout s = (Return tt, s)).
  { intros op. unfold Lock._lock. rewrite poll_unfold.
    apply Qltb_false in Hle. rewrite Hle. reflexivity. }
  split.
  - rewrite (acquire_read_first env timeout s Hr Hw), Hlock.
    cbn [after_lock]. rewrite Hr. reflexivity.
  - rewrite (acquire_write_first env timeout s Hw Hr), Hlock.
    cbn [after_lock]. rewrite Hw. reflexivity.
Qed.

Lemma no_budget_no_request_witness :
  ((0 <= 0)%Q /\ _reads fresh = 0 /\ _writes fresh = 0) /\
  Lock.acquire_read uncontended 0 fresh = (Return tt, set_reads 1 fresh) /\
  Lock.acquire_write uncontended 0 fresh = (Return tt, set_writes 1 fresh).
Proof.
  split; [repeat apply conj; try reflexivity; apply Qle_refl |].
  apply (no_budget_no_request uncontended 0 fresh);
    [apply Qle_refl | reflexivity | reflexivity].
Defined.

(** X8. With a positive timeout and the first request granted, an unlocked
    instance acquires at once: one request, no sleep.  [acquire_read]
    leaves the shared lock held and the file as it was; [acquire_write],
    when the stamp can be written, leaves the exclusive lock held and the
    stamp in the file. *)
Theorem free_lock_is_taken_at_once
  (env : environment) (timeout : Q) (s : state) :
  (0 < timeout)%Q -> _reads s = 0 -> _writes s = 0 ->
  flock_answer env (requests s) = Granted ->
  Lock.acquire_read env timeout s =
    (Return tt,
     mkState 1 0 Shared (file_content s) (S (requests s))
       (Flock (Z.lor fcntl.LOCK_SH fcntl.LOCK_NB) Granted :: trace s)) /\
  (write_answer env (S (requests s)) = Written ->
   Lock.acquire_write env timeout s =
     (Return tt,
      mkState 0 1 Exclusive (Lock.stamp env) (S (requests s))
        (OpenWrite (Lock.stamp env)
         :: Flock (Z.lor fcntl.LOCK_EX fcntl.LOCK_NB) Granted :: trace s))).
Proof.
  intros Hpos Hr Hw Hans.
  destruct (rounds_positive timeout Hpos) as (fuel & Hfuel).
  apply Qltb_true in Hpos. split; [| intros Hwr].
  - rewrite (acquire_read_first env timeout s Hr Hw).
    unfold Lock._lock. rewrite Hfuel, poll_unfold, Hpos. unfold bind.
    rewrite (attempt_granted env fcntl.LOCK_SH s (or_introl eq_refl) Hans)
      by discriminate.
    cbn. rewrite Hr, Hw. reflexivity.
  - rewrite (acquire_write_first env timeout s Hw Hr).
    unfold Lock._lock. rewrite Hfuel, poll_unfold, Hpos. unfold bind.
    rewrite (attempt_granted env fcntl.LOCK_EX s (or_intror eq_refl) Hans
               (fun _ => Hwr)).
    cbn. rewrite Hr, Hw. reflexivity.
Qed.

Lemma free_lock_is_taken_at_once_witness :
  ((0 < 5)%Q /\ _reads fresh = 0 /\ _writes fresh = 0 /\
   flock_answer uncontended (requests fresh) = Granted /\
   write_answer uncontended (S (requests fresh)) = Written) /\
  Lock.acquire_read uncontended 5 fresh =
    (Return tt, mkState 1 0 Shared EmptyString 1 [Flock 5 Granted]) /\
  Lock.acquire_write uncontended 5 fresh =
    (Return tt,
     mkState 0 1 Exclusive "pid = 4242, host = node1.example.org" 1
       [OpenWrite "pid = 4242, host = node1.example.org"; Flock 6 Granted]).
Proof.
  split; [repeat apply conj; reflexivity |].
  destruct (free_lock_is_taken_at_once uncontended 5 fresh)
    as [Hread Hwrite]; try reflexivity.
  split; [exact Hread | apply Hwrite; reflexivity].
Defined.

(** X13. A stamp that cannot be written leaves the lock behind.  With a
    positive timeout, the first request granted and the write of the stamp
    refused, [acquire_write] on an unlocked instance raises the [NameError]
    of the handler with both counters still at zero and the exclusive lock
    held by the descriptor; [release_write] then raises [AssertionError] and
    the lock stays held. *)
Theorem failed_stamp_keeps_the_lock
  (env : environment) (timeout : Q) (err : write_error) (s : state) :
  (0 < timeout)%Q -> _reads s = 0 -> _writes s = 0 ->
  flock_answer env (requests s) = Granted ->
  write_answer env (S (requests s)) = NotWritten err ->
  Lock.acquire_write env timeout s =
    (Raise (NameError "EACCES"),
     mkState 0 0 Exclusive (left_by err (file_content s)) (S (requests s))
       (OpenWriteFailed (Lock.stamp env) (we_errno err)
        :: Flock (Z.lor fcntl.LOCK_EX fcntl.LOCK_NB) Granted :: trace s)) /\
  fst (Lock.release_write env (snd (Lock.acquire_write env timeout s))) =
    Raise AssertionError /\
  os_lock (snd (Lock.release_write env
                  (snd (Lock.acquire_write env timeout s)))) = Exclusive.
Proof.
  intros Hpos Hr Hw Hans Hwr.
  destruct (rounds_positive timeout Hpos) as (fuel & Hfuel).
  apply Qltb_true in Hpos.
  assert (Hrun : Lock.acquire_write env timeout s =
    (Raise (NameError "EACCES"),
     mkState 0 0 Exclusive (left_by err (file_content s)) (S (requests s))
       (OpenWriteFailed (Lock.stamp env) (we_errno err)
        :: Flock (Z.lor fcntl.LOCK_EX fcntl.LOCK_NB) Granted :: trace s))).
  { rewrite (acquire_write_first env timeout s Hw Hr).
    unfold Lock._lock. rewrite Hfuel, poll_unfold, Hpos. unfold bind.
    rewrite (attempt_unstamped env err s Hans Hwr).
    cbn. rewrite Hr, Hw. reflexivity. }
  rewrite Hrun. cbn [snd].
  rewrite release_write_unheld by (cbn; lia).
  repeat apply conj; reflexivity.
Qed.

Lemma failed_stamp_keeps_the_lock_witness :
  ((0 < 5)%Q /\ _reads fresh = 0 /\ _writes fresh = 0 /\
   flock_answer disk_full (requests fresh) = Granted /\
   write_answer disk_full (S (requests fresh)) = NotWritten disk_full_error)
  /\
  Lock.acquire_write disk_full 5 fresh =
    (Raise (NameError "EACCES"),
     mkState 0 0 Exclusive EmptyString 1
       [OpenWriteFailed "pid = 4242, host = node1.example.org" 28;
        Flock 6 Granted]) /\
  fst (Lock.release_write disk_full
         (snd (Lock.acquire_write disk_full 5 fresh))) =
    Raise AssertionError /\
  os_lock (snd (Lock.release_write disk_full
                  (snd (Lock.acquire_write disk_full 5 fresh)))) = Exclusive.
Proof.
  split; [repeat apply conj; reflexivity |].
  apply (failed_stamp_keeps_the_lock disk_full 5 disk_full_error fresh);
    reflexivity.
Defined.

(** ** The guards *)

Lemma enter_exit_read (env : environment) (timeout : Q) (s s1 : state) :
  0 <= _reads s -> 0 <= _writes s ->
  Lock.acquire_read env timeout s = (Return tt, s1) ->
  exists s2,
    Lock.release_read env s1 = (Return tt, s2) /\
    _reads s2 = _reads s /\ _writes s2 = _writes s /\
    os_lock s2 =
      (if (_reads s =? 0) && (_writes s =? 0) then Unheld else os_lock s).
Proof.
  intros Hr0 Hw0 Henter.
  destruct (Z.eqb_spec (_reads s) 0) as [Hr | Hr];
    [destruct (Z.eqb_spec (_writes s) 0) as [Hw | Hw] |]; cbn [andb].
  - rewrite (acquire_read_first env timeout s Hr Hw) in Henter.
    destruct (_lock_outcome env fcntl.LOCK_SH timeout s (or_introl eq_refl))
      as (s' & Hr' & Hw' & [Hrun | (Hrun & _)]);
      rewrite Hrun in Henter; cbn [after_lock] in Henter;
      [| discriminate].
    injection Henter as <-.
    eexists. split; [apply release_read_last; cbn; lia |].
    cbn. repeat apply conj; congruence.
  - rewrite acquire_read_nested in Henter by auto. injection Henter as <-.
    eexists. split; [apply release_read_inner; cbn; [lia | right; exact Hw] |].
    cbn. repeat apply conj; try reflexivity. lia.
  - rewrite acquire_read_nested in Henter by auto. injection Henter as <-.
    eexists. split; [apply release_read_inner; cbn; [lia | left; lia] |].
    cbn. repeat apply conj; try reflexivity. lia.
Qed.

Lemma enter_exit_write (env : environment) (timeout : Q) (s s1 : state) :
  0 <= _reads s -> 0 <= _writes s ->
  Lock.acquire_write env timeout s = (Return tt, s1) ->
  exists s2,
    Lock.release_write env s1 = (Return tt, s2) /\
    _reads s2 = _reads s /\ _writes s2 = _writes s /\
    os_lock s2 =
      (if (_reads s =? 0) && (_writes s =? 0) then Unheld else os_lock s).
Proof.
  intros Hr0 Hw0 Henter.
  destruct (Z.eq_dec (_writes s) 0) as [Hw | Hw];
    [destruct (Z.eq_dec (_reads s) 0) as [Hr | Hr] |].
  - rewrite (acquire_write_first env timeout s Hw Hr) in Henter.
    destruct (_lock_outcome env fcntl.LOCK_EX timeout s (or_intror eq_refl))
      as (s' & Hr' & Hw' & [Hrun | (Hrun & _)]);
      rewrite Hrun in Henter; cbn [after_lock] in Henter;
      [| discriminate].
    injection Henter as <-.
    eexists. split; [apply release_write_last; cbn; lia |].
    rewrite Hr, Hw. cbn. repeat apply conj; congruence.
  - rewrite acquire_write_upgrade in Henter by auto. discriminate.
  - rewrite acquire_write_nested in Henter by auto. injection Henter as <-.
    eexists. split; [apply release_write_inner; cbn; [lia | left; lia] |].
    destruct (Z.eqb_spec (_writes s) 0) as [Habs | _]; [contradiction |].
    rewrite andb_false_r.
    cbn. repeat apply conj; try reflexivity. lia.
Qed.

(** X10. Entering and leaving a guard is a round trip on the counters.  In
    any state that calls lead to, for a guard made by [read_lock] or
    [write_lock] with or without a timeout: if [__enter__] returns, then
    [__exit__] returns as well and both counters are as before the guard
    was entered; the lock of the descriptor is as before when a counter
    was not zero (the guard was nested), and released when both were. *)
Theorem guard_round_trip
  (env : environment) (calls : list call) (content : string)
  (timeout : option Q) (s1 : state) :
  (_ReadLockContext.__enter__ env (read_lock timeout)
     (run env calls (Lock.__init__ content)) = (Return tt, s1) ->
   exists s2,
     _ReadLockContext.__exit__ env (read_lock timeout) s1 = (Return tt, s2) /\
     _reads s2 = _reads (run env calls (Lock.__init__ content)) /\
     _writes s2 = _writes (run env calls (Lock.__init__ content)) /\
     os_lock s2 =
       (if (_reads (run env calls (Lock.__init__ content)) =? 0) &&
           (_writes (run env calls (Lock.__init__ content)) =? 0)
        then Unheld
        else os_lock (run env calls (Lock.__init__ content)))) /\
  (_WriteLockContext.__enter__ env (write_lock timeout)
     (run env calls (Lock.__init__ content)) = (Return tt, s1) ->
   exists s2,
     _WriteLockContext.__exit__ env (write_lock timeout) s1 = (Return tt, s2) /\
     _reads s2 = _reads (run env calls (Lock.__init__ content)) /\
     _writes s2 = _writes (run env calls (Lock.__init__ content)) /\
     os_lock s2 =
       (if (_reads (run env calls (Lock.__init__ content)) =? 0) &&
           (_writes (run env calls (Lock.__init__ content)) =? 0)
        then Unheld
        else os_lock (run env calls (Lock.__init__ content)))).
Proof.
  assert (Hnn : 0 <= _reads (run env calls (Lock.__init__ content)) /\
                0 <= _writes (run env calls (Lock.__init__ content))).
  { destruct (safe_run env calls _ (safe_init env content))
      as [(H1 & H2 & H3) | [(H1 & H2 & H3)
         | [(H1 & H2 & H3 & H4) | (H1 & H2 & H3 & H4)]]];
      split; lia. }
  destruct Hnn as (Hr0 & Hw0).
  split; intros Henter.
  - unfold _ReadLockContext.__enter__ in Henter.
    unfold _ReadLockContext.__exit__.
    apply (enter_exit_read env _ _ s1 Hr0 Hw0 Henter).
  - unfold _WriteLockContext.__enter__ in Henter.
    unfold _WriteLockContext.__exit__.
    apply (enter_exit_write env _ _ s1 Hr0 Hw0 Henter).
Qed.

Lemma guard_round_trip_witness :
  let s := run uncontended [AcquireWrite 1] fresh in
  let r := snd (_ReadLockContext.__enter__ uncontended (read_lock None) s) in
  let w := snd (_WriteLockContext.__enter__ uncontended
                  (write_lock (Some 5%Q)) fresh) in
  (_ReadLockContext.__enter__ uncontended (read_lock None) s = (Return tt, r) /\
   _WriteLockContext.__enter__ uncontended (write_lock (Some 5%Q)) fresh
     = (Return tt, w)) /\
  (exists s2,
     _ReadLockContext.__exit__ uncontended (read_lock None) r
       = (Return tt, s2) /\
     _reads s2 = 0 /\ _writes s2 = 1 /\ os_lock s2 = Exclusive) /\
  (exists s2,
     _WriteLockContext.__exit__ uncontended (write_lock (Some 5%Q)) w
       = (Return tt, s2) /\
     _reads s2 = 0 /\ _writes s2 = 0 /\ os_lock s2 = Unheld).
Proof.
  split; [split; reflexivity |].
  split.
  - apply (proj1 (guard_round_trip uncontended [AcquireWrite 1] EmptyString
                    None _)).
    reflexivity.
  - apply (proj2 (guard_round_trip uncontended [] EmptyString
                    (Some 5%Q) _)).
    reflexivity.
Defined.

(** ** Retries *)

Lemma _lock_retries (env : environment) (op : Z) (timeout : Q) (s : state) :
  lock_op op ->
  forall j,
    (requests s + S j < requests (snd (Lock._lock env op timeout s)))%nat ->
    flock_answer env (requests s + j) = Refused errno.EAGAIN.
Proof.
  intros Hop j.
  destruct (_lock_result env op timeout s Hop)
    as [evs n s' (_ & _ & _ & Hrq) Hbusy _ _ _ _ _ _
       | evs n s' (_ & _ & _ & Hrq) Hbusy _ _ _ _
       | evs n e s' (_ & _ & _ & Hrq) Hbusy _ _ _ _ _ _
       | evs n err s' _ (_ & _ & _ & Hrq) Hbusy _ _ _ _ _];
    cbn [snd]; intros Hj; apply Hbusy; lia.
Qed.

Lemma after_lock_requests {A} (r : outcome A * state) (f : state -> state) :
  (forall s, requests (f s) = requests s) ->
  requests (snd (after_lock r f)) = requests (snd r).
Proof.
  intros Hf. destruct r as [[a | e |] s']; cbn; auto.
Qed.

(** X12. Only a would-block refusal is retried.  Within one call, every
    lock request that was followed by another one had been refused with
    EAGAIN: after a grant, and after a refusal with any other errno, the
    call makes no further request. *)
Theorem only_would_block_is_retried
  (env : environment) (c : call) (s : state) (j : nat) :
  (requests s + S j < requests (snd (perform env c s)))%nat ->
  flock_answer env (requests s + j) = Refused errno.EAGAIN.
Proof.
  destruct c as [timeout | timeout | |]; cbn [perform].
  - destruct (Z.eq_dec (_reads s) 0) as [Hr | Hr];
      [destruct (Z.eq_dec (_writes s) 0) as [Hw | Hw] |].
    + rewrite (acquire_read_first env timeout s Hr Hw).
      rewrite after_lock_requests by reflexivity.
      apply _lock_retries. left. reflexivity.
    + rewrite acquire_read_nested by auto. cbn. lia.
    + rewrite acquire_read_nested by auto. cbn. lia.
  - destruct (Z.eq_dec (_writes s) 0) as [Hw | Hw];
      [destruct (Z.eq_dec (_reads s) 0) as [Hr | Hr] |].
    + rewrite (acquire_write_first env timeout s Hw Hr).
      rewrite after_lock_requests by reflexivity.
      apply _lock_retries. right. reflexivity.
    + rewrite acquire_write_upgrade by auto. cbn. lia.
    + rewrite acquire_write_nested by auto. cbn. lia.
  - destruct (Z_le_gt_dec (_reads s) 0) as [Hr | Hr].
    + rewrite release_read_unheld by lia. cbn. lia.
    + destruct (Z.eq_dec (_reads s) 1) as [Hone | Hone];
        [destruct (Z.eq_dec (_writes s) 0) as [Hw | Hw] |].
      * rewrite release_read_last by assumption. cbn. lia.
      * rewrite release_read_inner by (auto; lia). cbn. lia.
      * rewrite release_read_inner by (auto; lia). cbn. lia.
  - destruct (Z_le_gt_dec (_writes s) 0) as [Hw | Hw].
    + rewrite release_write_unheld by lia. cbn. lia.
    + destruct (Z.eq_dec (_writes s) 1) as [Hone | Hone];
        [destruct (Z.eq_dec (_reads s) 0) as [Hr | Hr] |].
      * rewrite release_write_last by assumption. cbn. lia.
      * rewrite release_write_inner by (auto; lia). cbn. lia.
      * rewrite release_write_inner by (auto; lia). cbn. lia.
Qed.

Lemma only_would_block_is_retried_witness :
  (requests fresh + 2 <
   requests (snd (perform (free_after 3) (AcquireRead 1) fresh)))%nat /\
  flock_answer (free_after 3) (requests fresh + 1) = Refused errno.EAGAIN.
Proof.
  assert (H : (requests fresh + 2 <
               requests (snd (perform (free_after 3) (AcquireRead 1) fresh)))%nat).
  { vm_compute. repeat constructor. }
  split; [exact H |].
  apply (only_would_block_is_retried (free_after 3) (AcquireRead 1) fresh 1 H).
Defined.
